(** * DbPointRecord: a two-tier point cache in front of a database adapter

    Shallow embedding of [src/src/DbPointRecord.cpp] (epanet-rtx).  The
    record keeps an in-memory buffer (its base class, [DB_PR_SUPER]), a
    memo of the last database request, a read-only flag, a quality-code
    filter and a pointer to an adapter.  Every member function becomes a
    function on an explicit [State]; the adapter object is a component of
    that state, and a ghost trace records each call sent to it. *)

From Stdlib Require Import ZArith Lia.
From stdpp Require Import base list gmap strings sorting.

Local Open Scope Z_scope.

(** ** Points *)

(** [RTX::Point].  [time] is a [time_t]; [value] and [confidence] are
    doubles in the source.  The functions modelled here only copy them or
    cast a quality code into them, so they are carried as integers. *)
Record Point := mkPoint {
  time : Z;
  value : Z;
  quality : N;
  confidence : Z;
  isValid : bool
}.

Global Instance Point_eq_dec : EqDecision Point.
Proof. solve_decision. Defined.

(** ** Time ranges *)

Record TimeRange := mkRange {
  range_start : Z;
  range_end : Z
}.

Global Instance TimeRange_eq_dec : EqDecision TimeRange.
Proof. solve_decision. Defined.

(** Modelled from the spec: the default constructor [TimeRange()] of
    TimeRange.h, which is not part of the sources; it is the zero range,
    the sentinel for "no range". *)
Definition TimeRange_empty : TimeRange := mkRange 0 0.

(** Modelled from the spec: [TimeRange::contains] (TimeRange.cpp is not
    part of the sources); the interval is closed. *)
Definition contains (r : TimeRange) (t : Z) : bool :=
  (range_start r <=? t) && (t <=? range_end r).

(** Modelled from the spec: [TimeRange::containsRange] (TimeRange.cpp is not
    part of the sources). *)
Definition containsRange (r other : TimeRange) : bool :=
  (range_start r <=? range_start other) && (range_end other <=? range_end r).

Inductive intersect_type :=
| intersect_none
| intersect_other_internal
| intersect_other_external
| intersect_left
| intersect_right.

Global Instance intersect_type_eq_dec : EqDecision intersect_type.
Proof. solve_decision. Defined.

(** Modelled from the spec: [TimeRange::intersection] (TimeRange.cpp is not
    part of the sources).  [r] is the reference range, [q] the query; the
    five patterns are tried in the order in which section 4.1 lists them. *)
Definition intersection (r q : TimeRange) : intersect_type :=
  if containsRange r q then intersect_other_internal
  else if containsRange q r then intersect_other_external
  else if (range_start q <? range_start r)
          && (range_start r <=? range_end q) && (range_end q <=? range_end r)
       then intersect_left
  else if (range_start r <=? range_start q) && (range_start q <=? range_end r)
          && (range_end r <? range_end q)
       then intersect_right
  else intersect_none.

(** ** Units and the identifier registry *)

(** Modelled from the spec: [RTX::Units] (Units.h is not part of the
    sources).  Registration only distinguishes unset units from assigned
    ones and compares assigned ones for equality. *)
Inductive Units :=
| RTX_NO_UNITS
| RTX_DIMENSIONED (tag : N).

Global Instance Units_eq_dec : EqDecision Units.
Proof. solve_decision. Defined.

(** Modelled from the spec: [IdentifierUnitsList::doesHaveIdUnits]
    (IdentifierUnitsList.cpp is not part of the sources); returns
    [(nameExists, unitsMatch)]. *)
Definition doesHaveIdUnits (l : gmap string Units) (name : string) (u : Units)
  : bool * bool :=
  match l !! name with
  | Some existing => (true, bool_decide (existing = u))
  | None => (false, false)
  end.

(** ** The buffer tier ([DB_PR_SUPER], BufferPointRecord) *)

Module Buffer.

(** Modelled from the spec: the buffer tier of section 4.2
    (BufferPointRecord.cpp is not part of the sources).  Each identifier
    owns a time-ordered sequence of points; writes are upserts by time,
    followed by the eviction that the retention policy asks for. *)
Record t := mk {
  series : gmap string (list Point);
  registered : gmap string Units
}.

(** Modelled from the spec: the retention policy of the tier.  Points live
    in the tier "until evicted", and section 4.2 leaves the eviction policy
    to the implementation, so the policy is a parameter: after a write to a
    series [l] the tier keeps [evict l], a selection of the points of [l]
    in their order. *)
Class Retention := mkRetention {
  evict : list Point -> list Point;
  evict_sublist : forall l, evict l `sublist_of` l
}.

(** Two policies: a tier that never evicts, and the bounded recency
    retention of section 2, which keeps the [capacity] latest points of a
    series. *)
Definition unbounded : Retention :=
  mkRetention (fun l => l) (fun l => reflexivity l).

Definition mostRecent (capacity : nat) : Retention :=
  mkRetention (fun l => drop (length l - capacity) l)
    (fun l => sublist_drop l (length l - capacity)).

Definition empty : t := mk ∅ ∅.

Definition pointsOf (b : t) (id : string) : list Point :=
  default [] (series b !! id).

Definition inRange (r : TimeRange) (p : Point) : bool :=
  (range_start r <=? time p) && (time p <=? range_end r).

Fixpoint upsert (p : Point) (l : list Point) : list Point :=
  match l with
  | [] => [p]
  | x :: rest =>
      if time p <? time x then p :: x :: rest
      else if time p =? time x then p :: rest
      else x :: upsert p rest
  end.

Fixpoint find (t0 : Z) (l : list Point) : option Point :=
  match l with
  | [] => None
  | x :: rest => if time x =? t0 then Some x else find t0 rest
  end.

Definition point (b : t) (id : string) (t0 : Z) : option Point :=
  find t0 (pointsOf b id).

Definition pointsInRange (b : t) (id : string) (r : TimeRange) : list Point :=
  filter (fun p => inRange r p = true) (pointsOf b id).

(** The latest point strictly before [t0], the earliest strictly after. *)
Fixpoint findBefore (t0 : Z) (l : list Point) : option Point :=
  match l with
  | [] => None
  | x :: rest =>
      if time x <? t0 then
        match findBefore t0 rest with
        | Some y => Some y
        | None => Some x
        end
      else None
  end.

Fixpoint findAfter (t0 : Z) (l : list Point) : option Point :=
  match l with
  | [] => None
  | x :: rest => if t0 <? time x then Some x else findAfter t0 rest
  end.

Definition pointBefore (b : t) (id : string) (t0 : Z) : option Point :=
  findBefore t0 (pointsOf b id).

Definition pointAfter (b : t) (id : string) (t0 : Z) : option Point :=
  findAfter t0 (pointsOf b id).

Definition addPoint {rt : Retention} (b : t) (id : string) (p : Point) : t :=
  mk (<[id := evict (upsert p (pointsOf b id))]> (series b)) (registered b).

Definition addPoints {rt : Retention} (b : t) (id : string) (ps : list Point)
  : t :=
  foldl (fun acc p => addPoint acc id p) b ps.

(** Writing [ps] to the series of [id] evicts nothing: the series is the
    plain merge of the written points afterwards. *)
Definition retains {rt : Retention} (b : t) (id : string) (ps : list Point)
  : Prop :=
  pointsOf (addPoints b id ps) id
  = foldl (fun acc p => upsert p acc) (pointsOf b id) ps.

Definition range (b : t) (id : string) : TimeRange :=
  match pointsOf b id with
  | [] => TimeRange_empty
  | x :: rest => mkRange (time x) (time (List.last rest x))
  end.

Definition reset (b : t) : t := mk ∅ (registered b).

Definition reset_id (b : t) (id : string) : t :=
  mk (delete id (series b)) (registered b).

Definition registerAndGetIdentifierForSeriesWithUnits
    (b : t) (name : string) (u : Units) : bool * t :=
  (true, mk (series b) (<[name := u]> (registered b))).

(** The invariant of the tier: every series is strictly ordered by time. *)
Definition ordered (l : list Point) : Prop :=
  StronglySorted Z.lt (time <$> l).

Definition wf (b : t) : Prop :=
  forall id l, series b !! id = Some l -> ordered l.

End Buffer.

(** ** The adapter interface ([DbAdapter]) *)

(** [DbAdapter::adapterOptions], the capability flags read through
    [_adapter->options()]. *)
Record adapterOptions := mkOptions {
  supportsUnitsColumn : bool;
  canAssignUnits : bool;
  searchIteratively : bool;
  supportsSinglyBoundQuery : bool;
  implementationReadonly : bool
}.

(** Modelled from the spec: the [DbAdapter] interface of section 4.3
    (DbAdapter.h and its implementations are not part of the sources).
    [A] is the state of the backing store as seen through the adapter.
    Queries read it, writes and connection attempts return the new state;
    the options are a static description of the adapter.  A connection
    attempt can fail in two ways: it returns and the adapter still reports
    no connection, or it leaves through an [RtxException] ([dbConnect] is
    declared [throw(RtxException)]); [doConnectThrows a] tells whether the
    attempt made on [a] is of the second kind. *)
Class DbAdapter (A : Type) := mkAdapter {
  options : adapterOptions;
  adapterConnected : A -> bool;
  doConnect : A -> A;
  doConnectThrows : A -> bool;
  idUnitsList : A -> gmap string Units;
  insertIdentifierAndUnits : A -> string -> Units -> bool * A;
  assignUnitsToRecord : A -> string -> Units -> bool * A;
  removeRecord : A -> string -> A;
  selectRange : A -> string -> TimeRange -> list Point;
  selectNext : A -> string -> Z -> Point;
  selectPrevious : A -> string -> Z -> Point;
  insertSingle : A -> string -> Point -> A;
  insertRange : A -> string -> list Point -> A;
  beginTransaction : A -> A;
  endTransaction : A -> A
}.


(** Ghost trace: one entry per member function of the adapter that the
    record invokes, apart from the observers [options] and
    [adapterConnected]. *)
Inductive AdapterCall :=
| CallDoConnect
| CallIdUnitsList
| CallInsertIdentifierAndUnits (name : string) (u : Units)
| CallAssignUnitsToRecord (name : string) (u : Units)
| CallRemoveRecord (name : string)
| CallSelectRange (id : string) (r : TimeRange)
| CallSelectNext (id : string) (t : Z)
| CallSelectPrevious (id : string) (t : Z)
| CallInsertSingle (id : string) (p : Point)
| CallInsertRange (id : string) (ps : list Point)
| CallBeginTransaction
| CallEndTransaction.

Global Instance AdapterCall_eq_dec : EqDecision AdapterCall.
Proof. solve_decision. Defined.

(** ** The record's own state *)

(** [DbPointRecord::request_t]. *)
Record request_t := mkRequest {
  req_range : TimeRange;
  req_id : string
}.

Definition request_contains (r : request_t) (id : string) (t : Z) : bool :=
  if (range_start (req_range r) <=? t)
     && (t <=? range_end (req_range r))
     && String.eqb id (req_id r)
  then true else false.

Definition request_clear (_ : request_t) : request_t :=
  mkRequest TimeRange_empty "".

Inductive OpcFilterType :=
| OpcPassThrough
| OpcWhiteList
| OpcBlackList
| OpcCodesToValues
| OpcCodesToConfidence
| OpcNoFilter.

Global Instance OpcFilterType_eq_dec : EqDecision OpcFilterType.
Proof. solve_decision. Defined.

Record State (A : Type) := mkState {
  super : Buffer.t;
  _last_request : request_t;
  _readOnly : bool;
  _filterType : OpcFilterType;
  _opcFilter : OpcFilterType;
  _opcFilterCodes : gset N;
  _identifiersAndUnitsCache : gmap string Units;
  _lastIdRequest : Z;
  iterativeSearchMaxIterations : Z;
  iterativeSearchStride : Z;
  _adapter : A;
  calls : list AdapterCall
}.

Arguments mkState {A}.
Arguments super {A} _.
Arguments _last_request {A} _.
Arguments _readOnly {A} _.
Arguments _filterType {A} _.
Arguments _opcFilter {A} _.
Arguments _opcFilterCodes {A} _.
Arguments _identifiersAndUnitsCache {A} _.
Arguments _lastIdRequest {A} _.
Arguments iterativeSearchMaxIterations {A} _.
Arguments iterativeSearchStride {A} _.
Arguments _adapter {A} _.
Arguments calls {A} _.

(** Field updates, written [st <| field := v |>] style by hand. *)
Definition with_super {A} (b : Buffer.t) (st : State A) : State A :=
  mkState b (_last_request st) (_readOnly st) (_filterType st) (_opcFilter st)
    (_opcFilterCodes st) (_identifiersAndUnitsCache st) (_lastIdRequest st)
    (iterativeSearchMaxIterations st) (iterativeSearchStride st)
    (_adapter st) (calls st).

Definition with_last_request {A} (r : request_t) (st : State A) : State A :=
  mkState (super st) r (_readOnly st) (_filterType st) (_opcFilter st)
    (_opcFilterCodes st) (_identifiersAndUnitsCache st) (_lastIdRequest st)
    (iterativeSearchMaxIterations st) (iterativeSearchStride st)
    (_adapter st) (calls st).

Definition with_readOnly {A} (b : bool) (st : State A) : State A :=
  mkState (super st) (_last_request st) b (_filterType st) (_opcFilter st)
    (_opcFilterCodes st) (_identifiersAndUnitsCache st) (_lastIdRequest st)
    (iterativeSearchMaxIterations st) (iterativeSearchStride st)
    (_adapter st) (calls st).

Definition with_filterType {A} (ty : OpcFilterType) (st : State A) : State A :=
  mkState (super st) (_last_request st) (_readOnly st) ty (_opcFilter st)
    (_opcFilterCodes st) (_identifiersAndUnitsCache st) (_lastIdRequest st)
    (iterativeSearchMaxIterations st) (iterativeSearchStride st)
    (_adapter st) (calls st).

Definition with_opcFilter {A} (ty : OpcFilterType) (st : State A) : State A :=
  mkState (super st) (_last_request st) (_readOnly st) (_filterType st) ty
    (_opcFilterCodes st) (_identifiersAndUnitsCache st) (_lastIdRequest st)
    (iterativeSearchMaxIterations st) (iterativeSearchStride st)
    (_adapter st) (calls st).

Definition with_opcFilterCodes {A} (c : gset N) (st : State A) : State A :=
  mkState (super st) (_last_request st) (_readOnly st) (_filterType st)
    (_opcFilter st) c (_identifiersAndUnitsCache st) (_lastIdRequest st)
    (iterativeSearchMaxIterations st) (iterativeSearchStride st)
    (_adapter st) (calls st).

Definition with_idCache {A} (c : gmap string Units) (st : State A) : State A :=
  mkState (super st) (_last_request st) (_readOnly st) (_filterType st)
    (_opcFilter st) (_opcFilterCodes st) c (_lastIdRequest st)
    (iterativeSearchMaxIterations st) (iterativeSearchStride st)
    (_adapter st) (calls st).

Definition with_lastIdRequest {A} (t : Z) (st : State A) : State A :=
  mkState (super st) (_last_request st) (_readOnly st) (_filterType st)
    (_opcFilter st) (_opcFilterCodes st) (_identifiersAndUnitsCache st) t
    (iterativeSearchMaxIterations st) (iterativeSearchStride st)
    (_adapter st) (calls st).

(** One call on the adapter object: its new state, and the ghost trace. *)
Definition adapter_call {A} (c : AdapterCall) (a : A) (st : State A) : State A :=
  mkState (super st) (_last_request st) (_readOnly st) (_filterType st)
    (_opcFilter st) (_opcFilterCodes st) (_identifiersAndUnitsCache st)
    (_lastIdRequest st) (iterativeSearchMaxIterations st)
    (iterativeSearchStride st) a (calls st ++ [c]).

(** A member function that can leave through a C++ exception. *)
Inductive outcome (S : Type) :=
| Returned (s : S)
| Threw (s : S).

Arguments Returned {S} _.
Arguments Threw {S} _.

Definition _DB_MAX_CONNECT_TRY : Z := 5.

(** The quality markers [Point::opc_rtx_override] and
    [Point::opc_rtx_missing] are enumerators of Point.h, which is not part
    of the sources; their numeric values are parameters. *)
Class PointQuality := mkPointQuality {
  opc_rtx_override : N;
  opc_rtx_missing : N
}.

(** ** Member functions of [DbPointRecord] *)

Section DbPointRecord.

Context {A : Type} {db : DbAdapter A} {pq : PointQuality}
  {rt : Buffer.Retention}.

(** Modelled from the spec: the constructors of [RTX::Point] (Point.cpp is
    not part of the sources).  [Point()] is the invalid sentinel, a point
    built from its four components is a valid one. *)
Definition Point_default : Point := mkPoint 0 0 opc_rtx_missing 0 false.

Definition Point_make (t v : Z) (q : N) (c : Z) : Point := mkPoint t v q c true.

(** *** Connection *)

Definition isConnected (st : State A) : bool :=
  adapterConnected (_adapter st).

Definition dbConnect (st : State A) : State A :=
  adapter_call CallDoConnect (doConnect (_adapter st)) st.

(** The loop of [checkConnected]: [while (!connected && ++iTry < 5)]. *)
Fixpoint checkConnected_loop (fuel : nat) (iTry : Z) (st : State A) : State A :=
  match fuel with
  | O => st
  | S fuel' =>
      if negb (adapterConnected (_adapter st))
         && (iTry + 1 <? _DB_MAX_CONNECT_TRY)
      then checkConnected_loop fuel' (iTry + 1) (dbConnect st)
      else st
  end.

Definition checkConnected (st : State A) : bool * State A :=
  let st' := checkConnected_loop (Z.to_nat _DB_MAX_CONNECT_TRY) 0 st in
  (isConnected st', st').

(** *** Read-only policy *)

Definition readonly (st : State A) : bool :=
  if implementationReadonly (options (A:=A)) then true else _readOnly st.

Definition setReadonly (readOnly : bool) (st : State A) : State A :=
  if implementationReadonly (options (A:=A)) then with_readOnly false st
  else with_readOnly readOnly st.

(** *** Quality filter *)

(** The closure table of [setOpcFilterType]; each closure reads the live
    code set through [this->opcFilterList()].  [OpcNoFilter] has no entry. *)
Definition opcFilters (ty : OpcFilterType) : option (gset N -> Point -> Point) :=
  match ty with
  | OpcPassThrough => Some (fun _ p => p)
  | OpcWhiteList => Some (fun codes p =>
      if decide (quality p ∈ codes)
      then Point_make (time p) (value p) opc_rtx_override (confidence p)
      else Point_default)
  | OpcBlackList => Some (fun codes p =>
      if decide (quality p ∈ codes)
      then Point_default
      else Point_make (time p) (value p) opc_rtx_override (confidence p))
  | OpcCodesToValues => Some (fun _ p =>
      Point_make (time p) (Z.of_N (quality p)) opc_rtx_override (confidence p))
  | OpcCodesToConfidence => Some (fun _ p =>
      Point_make (time p) (value p) opc_rtx_override (Z.of_N (quality p)))
  | OpcNoFilter => None
  end.

(** [_opcFilter] holds the key of the installed closure.  Before the
    constructor has installed one the [std::function] is empty; the model
    lets the empty function answer [Point()]. *)
Definition pointWithOpcFilter (st : State A) (p : Point) : Point :=
  match opcFilters (_opcFilter st) with
  | Some f => f (_opcFilterCodes st) p
  | None => Point_default
  end.

Fixpoint pointsWithOpcFilter (st : State A) (points : list Point) : list Point :=
  match points with
  | [] => []
  | p :: rest =>
      let outPoint := pointWithOpcFilter st p in
      if isValid outPoint then outPoint :: pointsWithOpcFilter st rest
      else pointsWithOpcFilter st rest
  end.

Definition setOpcFilterType (ty : OpcFilterType) (st : State A)
  : outcome (State A) :=
  if decide (_filterType st <> ty) then
    let st1 := with_filterType ty (with_super (Buffer.reset (super st)) st) in
    match opcFilters ty with
    | Some _ => Returned (with_opcFilter ty st1)
    | None => Threw st1
    end
  else Returned st.

Definition opcFilterType (st : State A) : OpcFilterType := _filterType st.

Definition opcFilterList (st : State A) : gset N := _opcFilterCodes st.

Definition clearOpcFilterList (st : State A) : State A :=
  dbConnect (with_super (Buffer.reset (super st)) (with_opcFilterCodes ∅ st)).

Definition addOpcFilterCode (code : N) (st : State A) : State A :=
  dbConnect (with_super (Buffer.reset (super st))
               (with_opcFilterCodes ({[code]} ∪ _opcFilterCodes st) st)).

Definition removeOpcFilterCode (code : N) (st : State A) : State A :=
  if decide (code ∈ _opcFilterCodes st) then
    dbConnect (with_super (Buffer.reset (super st))
                 (with_opcFilterCodes (_opcFilterCodes st ∖ {[code]}) st))
  else st.

(** *** Construction *)

(** [DbPointRecord::DbPointRecord()], followed by the attachment of the
    adapter [a] that a concrete record performs.  [_lastIdRequest] has no
    initialiser in the constructor, so its first value [t0] is an input. *)
Definition DbPointRecord_new (a : A) (t0 : Z) : State A :=
  let pre := mkState Buffer.empty (mkRequest TimeRange_empty "") false
               OpcNoFilter OpcNoFilter ∅ ∅ t0 8 (3 * 60 * 60) a [] in
  match setOpcFilterType OpcPassThrough pre with
  | Returned st => st
  | Threw st => st
  end.

(** *** The base class, as called through [DB_PR_SUPER::] *)

Definition super_point (st : State A) (id : string) (t : Z) : Point :=
  default Point_default (Buffer.point (super st) id t).

Definition super_pointsInRange (st : State A) (id : string) (r : TimeRange)
  : list Point :=
  Buffer.pointsInRange (super st) id r.

Definition super_addPoint (id : string) (p : Point) (st : State A) : State A :=
  with_super (Buffer.addPoint (super st) id p) st.

Definition super_addPoints (id : string) (ps : list Point) (st : State A)
  : State A :=
  with_super (Buffer.addPoints (super st) id ps) st.

Definition super_register (name : string) (u : Units) (st : State A)
  : bool * State A :=
  let '(ok, b) :=
    Buffer.registerAndGetIdentifierForSeriesWithUnits (super st) name u in
  (ok, with_super b st).

(** *** Adapter queries, with their trace entries *)

Definition adapter_selectRange (id : string) (r : TimeRange) (st : State A)
  : list Point * State A :=
  (selectRange (_adapter st) id r,
   adapter_call (CallSelectRange id r) (_adapter st) st).

Definition request_new (id : string) (r : TimeRange) : request_t :=
  mkRequest r id.

(** *** Single point lookup *)

(** The scan at the end of [point]: keep the last exact match, stop at the
    first later point. *)
Fixpoint point_scan (t : Z) (p : Point) (pVec : list Point) : Point :=
  match pVec with
  | [] => p
  | x :: rest =>
      if time x =? t then point_scan t x rest
      else if t <? time x then p
      else point_scan t p rest
  end.

Definition point (id : string) (t : Z) (st : State A) : Point * State A :=
  let p := super_point st id t in
  let '(connected, st1) := checkConnected st in
  if negb connected then (p, st1)
  else if negb (isValid p) then
    if request_contains (_last_request st1) id t then (Point_default, st1)
    else
      let margin := 60 * 60 * 12 in
      let '(raw, st2) :=
        adapter_selectRange id (mkRange (t - margin) (t + margin)) st1 in
      let pVec := pointsWithOpcFilter st2 raw in
      let req :=
        match pVec with
        | [] => request_new id TimeRange_empty
        | front :: rest =>
            request_new id (mkRange (time front) (time (List.last rest front)))
        end in
      let st3 := with_last_request req st2 in
      (point_scan t p pVec, super_addPoints id pVec st3)
  else (p, st1).

(** *** Range lookup *)

(** The de-duplication loop of [pointsInRange]: [addedTimes] is the set of
    timestamps seen so far. *)
Fixpoint deDupe (qrange : TimeRange) (addedTimes : gset Z) (merged : list Point)
  : list Point :=
  match merged with
  | [] => []
  | p :: rest =>
      if decide (time p ∈ addedTimes) then deDupe qrange addedTimes rest
      else
        if (range_start qrange <=? time p) && (time p <=? range_end qrange)
        then p :: deDupe qrange ({[time p]} ∪ addedTimes) rest
        else deDupe qrange ({[time p]} ∪ addedTimes) rest
  end.

Definition pointsInRange (id : string) (qrange : TimeRange) (st : State A)
  : list Point * State A :=
  if containsRange (req_range (_last_request st)) qrange
     && String.eqb (req_id (_last_request st)) id
  then (super_pointsInRange st id qrange, st)
  else
    let '(connected, st1) := checkConnected st in
    if negb connected then (super_pointsInRange st1 id qrange, st1)
    else
      let range := Buffer.range (super st1) id in
      let intersect := intersection range qrange in
      match intersect with
      | intersect_other_internal => (super_pointsInRange st1 id qrange, st1)
      | _ =>
          let '(left_, middle, right_, st2) :=
            match intersect with
            | intersect_left =>
                let n_range := mkRange (range_start qrange) (range_start range) in
                let '(raw, st2) := adapter_selectRange id n_range st1 in
                ([], pointsWithOpcFilter st2 raw,
                 super_pointsInRange st2 id
                   (mkRange (range_start range) (range_end qrange)),
                 st2)
            | intersect_right =>
                let n_range := mkRange (range_end range) (range_end qrange) in
                let left_ := super_pointsInRange st1 id
                              (mkRange (range_start qrange) (range_end range)) in
                let '(raw, st2) := adapter_selectRange id n_range st1 in
                (left_, pointsWithOpcFilter st2 raw, [], st2)
            | intersect_other_external =>
                let q_left := mkRange (range_start qrange) (range_start range) in
                let q_right := mkRange (range_end range) (range_end qrange) in
                let '(rawl, st2) := adapter_selectRange id q_left st1 in
                let left_ := pointsWithOpcFilter st2 rawl in
                let middle := super_pointsInRange st2 id range in
                let '(rawr, st3) := adapter_selectRange id q_right st2 in
                (left_, middle, pointsWithOpcFilter st3 rawr, st3)
            | _ =>
                let '(raw, st2) := adapter_selectRange id qrange st1 in
                ([], pointsWithOpcFilter st2 raw, [], st2)
            end in
          let merged := left_ ++ middle ++ right_ in
          let deDuped := deDupe qrange ∅ merged in
          let req :=
            match deDuped with
            | [] => request_new id TimeRange_empty
            | _ :: _ => request_new id qrange
            end in
          (deDuped, super_addPoints id deDuped (with_last_request req st2))
      end.

(** *** Writes *)

Definition addPoint (id : string) (p : Point) (st : State A) : State A :=
  if negb (readonly st) then
    let '(connected, st1) := checkConnected st in
    if connected then
      let st2 := super_addPoint id p st1 in
      adapter_call (CallInsertSingle id p)
        (insertSingle (_adapter st2) id p) st2
    else st1
  else st.

Definition addPoints (id : string) (points : list Point) (st : State A)
  : State A :=
  if negb (readonly st) then
    let '(connected, st1) := checkConnected st in
    if connected then
      let st2 := super_addPoints id points st1 in
      adapter_call (CallInsertRange id points)
        (insertRange (_adapter st2) id points) st2
    else st1
  else st.

(** *** Reset and invalidation *)

Definition reset (st : State A) : State A :=
  if negb (readonly st) then
    let '(connected, st1) := checkConnected st in
    if connected then with_super (Buffer.reset (super st1)) st1 else st1
  else st.

Definition reset_id (id : string) (st : State A) : State A :=
  if negb (readonly st) then
    let '(connected, st1) := checkConnected st in
    if connected then
      let st2 := with_super (Buffer.reset_id (super st1) id) st1 in
      with_last_request (request_clear (_last_request st2)) st2
    else st1
  else st.

Definition invalidate (identifier : string) (st : State A) : State A :=
  if negb (readonly st) then
    let '(connected, st1) := checkConnected st in
    if connected then
      reset_id identifier
        (adapter_call (CallRemoveRecord identifier)
           (removeRecord (_adapter st1) identifier) st1)
    else st1
  else st.

(** *** Bulk operations *)

Definition beginBulkOperation (st : State A) : State A :=
  let '(connected, st1) := checkConnected st in
  if connected then
    adapter_call CallBeginTransaction (beginTransaction (_adapter st1)) st1
  else st1.

Definition endBulkOperation (st : State A) : State A :=
  let '(connected, st1) := checkConnected st in
  if connected then
    adapter_call CallEndTransaction (endTransaction (_adapter st1)) st1
  else st1.

(** *** The identifier registry *)

(** [now] is the value read from [time(NULL)]. *)
Definition identifiersAndUnits (now : Z) (st : State A)
  : gmap string Units * State A :=
  let stale := now - _lastIdRequest st in
  let st0 := with_lastIdRequest now st in
  if (stale <? 5) && negb (bool_decide (_identifiersAndUnitsCache st0 = ∅))
  then (_identifiersAndUnitsCache st0, st0)
  else
    let '(connected, st1) := checkConnected st0 in
    if connected then
      let l := idUnitsList (_adapter st1) in
      let st2 := with_idCache l (adapter_call CallIdUnitsList (_adapter st1) st1) in
      (_identifiersAndUnitsCache st2, st2)
    else (_identifiersAndUnitsCache st1, st1).

Definition registerAndGetIdentifierForSeriesWithUnits
    (name : string) (units : Units) (now : Z) (st : State A) : bool * State A :=
  if (String.length name =? 0)%nat then (false, st)
  else
    let existingUnits := RTX_NO_UNITS in
    let '(connected, st1) := checkConnected st in
    if negb connected then super_register name units st1
    else
      let '(list, st2) := identifiersAndUnits now st1 in
      let '(nameExists, unitsMatch) := doesHaveIdUnits list name units in
      if readonly st2 then
        if nameExists
           && (unitsMatch || negb (supportsUnitsColumn (options (A:=A))))
        then (true, snd (super_register name units st2))
        else if canAssignUnits (options (A:=A))
                && bool_decide (existingUnits = RTX_NO_UNITS)
        then
          let '(_, a) := assignUnitsToRecord (_adapter st2) name units in
          let st3 := adapter_call (CallAssignUnitsToRecord name units) a st2 in
          (true, snd (super_register name units st3))
        else (false, st2)
      else
        if nameExists && negb unitsMatch then
          if bool_decide (existingUnits = RTX_NO_UNITS) then
            if canAssignUnits (options (A:=A)) then
              let '(ok, a) := assignUnitsToRecord (_adapter st2) name units in
              (ok, adapter_call (CallAssignUnitsToRecord name units) a st2)
            else (false, st2)
          else
            let st3 := adapter_call (CallRemoveRecord name)
                         (removeRecord (_adapter st2) name) st2 in
            super_register name units st3
        else if negb nameExists || negb unitsMatch then
          let '(inserted, a) :=
            insertIdentifierAndUnits (_adapter st2) name units in
          let st3 := adapter_call (CallInsertIdentifierAndUnits name units) a st2 in
          if inserted then
            let '(ok, st4) := super_register name units st3 in
            if ok then (true, st4)
            else if nameExists && unitsMatch then super_register name units st4
            else (false, st4)
          else if nameExists && unitsMatch then super_register name units st3
          else (false, st3)
        else if nameExists && unitsMatch then super_register name units st2
        else (false, st2).

(** *** Iterative search for a bound *)

Definition shift (r : TimeRange) (d : Z) : TimeRange :=
  mkRange (range_start r + d) (range_end r + d).

(** The [while] loop shared by both searches: [step] is
    [- iterativeSearchStride] when looking behind and
    [+ iterativeSearchStride] when looking ahead.  The counter strictly
    decreases, so [fuel = limit] iterations are enough. *)
Fixpoint search_loop (fuel : nat) (id : string) (step : Z)
    (points : list Point) (r : TimeRange) (limit : Z) (st : State A)
  : list Point * State A :=
  match fuel with
  | O => (points, st)
  | S fuel' =>
      if bool_decide (points = []) && (0 <? limit) then
        let '(points', st') := pointsInRange id r st in
        search_loop fuel' id step points' (shift r step) (limit - 1) st'
      else (points, st)
  end.

Definition searchPreviousIteratively (id : string) (t : Z) (st : State A)
  : Point * State A :=
  let lookBehindLimit := iterativeSearchMaxIterations st in
  let '(connected, st1) := checkConnected st in
  if negb connected then (Point_default, st1)
  else
    let r := mkRange (t - iterativeSearchStride st1) (t - 1) in
    let '(points, st2) :=
      search_loop (Z.to_nat lookBehindLimit) id (- iterativeSearchStride st1)
        [] r lookBehindLimit st1 in
    match points with
    | [] => (Point_default, st2)
    | x :: rest => (List.last rest x, st2)
    end.

Definition searchNextIteratively (id : string) (t : Z) (st : State A)
  : Point * State A :=
  let lookAheadLimit := iterativeSearchMaxIterations st in
  let '(connected, st1) := checkConnected st in
  if negb connected then (Point_default, st1)
  else
    let r := mkRange (t + 1) (t + iterativeSearchStride st1) in
    let '(points, st2) :=
      search_loop (Z.to_nat lookAheadLimit) id (iterativeSearchStride st1)
        [] r lookAheadLimit st1 in
    match points with
    | [] => (Point_default, st2)
    | x :: _ => (x, st2)
    end.

(** *** Bound lookups *)

Definition super_pointBefore (st : State A) (id : string) (t : Z) : Point :=
  default Point_default (Buffer.pointBefore (super st) id t).

Definition super_pointAfter (st : State A) (id : string) (t : Z) : Point :=
  default Point_default (Buffer.pointAfter (super st) id t).

Definition pointBefore (id : string) (t : Z) (st : State A) : Point * State A :=
  let p := super_pointBefore st id t in
  if isValid p then (p, st)
  else if request_contains (_last_request st) id (t - 1) then (Point_default, st)
  else
    let '(connected, st1) := checkConnected st in
    if negb connected then (p, st1)
    else
      let '(p1, st2) :=
        if searchIteratively (options (A:=A))
        then searchPreviousIteratively id t st1
        else (p, st1) in
      if searchIteratively (options (A:=A)) && isValid p1
      then (pointWithOpcFilter st2 p1, st2)
      else
        let '(p2, st3) :=
          if supportsSinglyBoundQuery (options (A:=A))
          then (selectPrevious (_adapter st2) id t,
                adapter_call (CallSelectPrevious id t) (_adapter st2) st2)
          else (p1, st2) in
        if isValid p2 then (pointWithOpcFilter st3 p2, st3) else (p2, st3).

Definition pointAfter (id : string) (t : Z) (st : State A) : Point * State A :=
  let p := super_pointAfter st id t in
  if isValid p then (p, st)
  else if request_contains (_last_request st) id (t + 1) then (Point_default, st)
  else
    let '(connected, st1) := checkConnected st in
    if negb connected then (p, st1)
    else
      let '(p1, st2) :=
        if searchIteratively (options (A:=A))
        then searchNextIteratively id t st1
        else (p, st1) in
      if isValid p1 then (pointWithOpcFilter st2 p1, st2)
      else
        let '(p2, st3) :=
          if supportsSinglyBoundQuery (options (A:=A))
          then (selectNext (_adapter st2) id t,
                adapter_call (CallSelectNext id t) (_adapter st2) st2)
          else (p1, st2) in
        if isValid p2 then (pointWithOpcFilter st3 p2, st3) else (p2, st3).

End DbPointRecord.

(** ** The write path, with the exception of [dbConnect]

    [dbConnect] is declared [throw(RtxException)], and neither
    [checkConnected] nor the members that call it catch anything: a
    connection attempt that raises ends the retry loop and the exception
    leaves the member function.  The members above describe the runs in
    which no attempt raises; here the exception is an outcome of the
    connection check and of the two writes. *)

Module Raising.

Section Members.

Context {A : Type} {db : DbAdapter A} {pq : PointQuality}
  {rt : Buffer.Retention}.

Definition dbConnect (st : State A) : outcome (State A) :=
  let st' := adapter_call CallDoConnect (doConnect (_adapter st)) st in
  if doConnectThrows (_adapter st) then Threw st' else Returned st'.

Fixpoint checkConnected_loop (fuel : nat) (iTry : Z) (st : State A)
  : outcome (State A) :=
  match fuel with
  | O => Returned st
  | S fuel' =>
      if negb (adapterConnected (_adapter st))
         && (iTry + 1 <? _DB_MAX_CONNECT_TRY)
      then match dbConnect st with
           | Returned st' => checkConnected_loop fuel' (iTry + 1) st'
           | Threw st' => Threw st'
           end
      else Returned st
  end.

(** [Returned st']: the check returned [isConnected st']. *)
Definition checkConnected (st : State A) : outcome (State A) :=
  checkConnected_loop (Z.to_nat _DB_MAX_CONNECT_TRY) 0 st.

Definition addPoint (id : string) (p : Point) (st : State A)
  : outcome (State A) :=
  if negb (readonly st) then
    match checkConnected st with
    | Returned st1 =>
        if isConnected st1 then
          let st2 := super_addPoint id p st1 in
          Returned (adapter_call (CallInsertSingle id p)
                      (insertSingle (_adapter st2) id p) st2)
        else Returned st1
    | Threw st1 => Threw st1
    end
  else Returned st.

Definition addPoints (id : string) (points : list Point) (st : State A)
  : outcome (State A) :=
  if negb (readonly st) then
    match checkConnected st with
    | Returned st1 =>
        if isConnected st1 then
          let st2 := super_addPoints id points st1 in
          Returned (adapter_call (CallInsertRange id points)
                      (insertRange (_adapter st2) id points) st2)
        else Returned st1
    | Threw st1 => Threw st1
    end
  else Returned st.

End Members.

End Raising.

(** ** Operations as data *)

(** One entry per public member function, so that histories of calls can be
    quantified over. *)
Inductive Op :=
| OpSetReadonly (readOnly : bool)
| OpRegister (name : string) (units : Units) (now : Z)
| OpIdentifiersAndUnits (now : Z)
| OpBeginBulkOperation
| OpEndBulkOperation
| OpPoint (id : string) (t : Z)
| OpPointBefore (id : string) (t : Z)
| OpPointAfter (id : string) (t : Z)
| OpPointsInRange (id : string) (r : TimeRange)
| OpAddPoint (id : string) (p : Point)
| OpAddPoints (id : string) (ps : list Point)
| OpReset
| OpResetId (id : string)
| OpInvalidate (id : string)
| OpSetOpcFilterType (ty : OpcFilterType)
| OpClearOpcFilterList
| OpAddOpcFilterCode (code : N)
| OpRemoveOpcFilterCode (code : N)
| OpDbConnect.

Section Histories.

Context {A : Type} {db : DbAdapter A} {pq : PointQuality}
  {rt : Buffer.Retention}.

Definition run_op (o : Op) (st : State A) : State A :=
  match o with
  | OpSetReadonly b => setReadonly b st
  | OpRegister name units now =>
      snd (registerAndGetIdentifierForSeriesWithUnits name units now st)
  | OpIdentifiersAndUnits now => snd (identifiersAndUnits now st)
  | OpBeginBulkOperation => beginBulkOperation st
  | OpEndBulkOperation => endBulkOperation st
  | OpPoint id t => snd (point id t st)
  | OpPointBefore id t =>
      snd (pointBefore id t st)
  | OpPointAfter id t =>
      snd (pointAfter id t st)
  | OpPointsInRange id r =>
      snd (pointsInRange id r st)
  | OpAddPoint id p => addPoint id p st
  | OpAddPoints id ps => addPoints id ps st
  | OpReset => reset st
  | OpResetId id => reset_id id st
  | OpInvalidate id => invalidate id st
  | OpSetOpcFilterType ty =>
      match setOpcFilterType ty st with
      | Returned st' => st'
      | Threw st' => st'
      end
  | OpClearOpcFilterList => clearOpcFilterList st
  | OpAddOpcFilterCode code => addOpcFilterCode code st
  | OpRemoveOpcFilterCode code => removeOpcFilterCode code st
  | OpDbConnect => dbConnect st
  end.

Definition run (ops : list Op) (st : State A) : State A :=
  foldl (fun s o => run_op o s) st ops.

(** The value most recently passed to [setReadonly] in a history, [d] when
    there was no such call. *)
Fixpoint lastRequestedReadonly (d : bool) (ops : list Op) : bool :=
  match ops with
  | [] => d
  | OpSetReadonly b :: rest => lastRequestedReadonly b rest
  | _ :: rest => lastRequestedReadonly d rest
  end.

End Histories.

(** ** A test double for the adapter *)

Module Mock.

(** An in-memory backing store.  It is reachable after [delay] further
    connection attempts. *)
Record t := mk {
  connected : bool;
  delay : nat;
  store : gmap string (list Point);
  registry : gmap string Units
}.

Definition rows (a : t) (id : string) : list Point :=
  default [] (store a !! id).

Definition connect (a : t) : t :=
  if connected a then a
  else match delay a with
       | O => mk true O (store a) (registry a)
       | S n => mk false n (store a) (registry a)
       end.

Definition select (a : t) (id : string) (r : TimeRange) : list Point :=
  filter (fun p => Buffer.inRange r p = true) (rows a id).

Definition insert1 (a : t) (id : string) (p : Point) : t :=
  mk (connected a) (delay a)
     (<[id := Buffer.upsert p (rows a id)]> (store a)) (registry a).

Definition insertN (a : t) (id : string) (ps : list Point) : t :=
  foldl (fun acc p => insert1 acc id p) a ps.

(** The adapter in front of the store.  With [faults] set, a connection
    attempt that does not reach the store raises; otherwise it returns. *)
Definition adapter (opts : adapterOptions) (missing : N) (faults : bool)
  : DbAdapter t :=
  {| options := opts;
     adapterConnected := connected;
     doConnect := connect;
     doConnectThrows := fun a => faults && negb (connected (connect a));
     idUnitsList := registry;
     insertIdentifierAndUnits := fun a name u =>
       (true, mk (connected a) (delay a) (store a)
                (match registry a !! name with
                 | Some _ => registry a
                 | None => <[name := u]> (registry a)
                 end));
     assignUnitsToRecord := fun a name u =>
       (true, mk (connected a) (delay a) (store a) (<[name := u]> (registry a)));
     removeRecord := fun a name =>
       mk (connected a) (delay a) (delete name (store a))
          (delete name (registry a));
     selectRange := select;
     selectNext := fun a id t0 =>
       default (mkPoint 0 0 missing 0 false) (Buffer.findAfter t0 (rows a id));
     selectPrevious := fun a id t0 =>
       default (mkPoint 0 0 missing 0 false) (Buffer.findBefore t0 (rows a id));
     insertSingle := insert1;
     insertRange := insertN;
     beginTransaction := fun a => a;
     endTransaction := fun a => a |}.

Definition writable : adapterOptions := mkOptions true true false true false.

End Mock.

(** ** EpanetModelExporter.cpp: section headers *)

Module Exporter.

Import Stdlib.Strings.Ascii Stdlib.Strings.String.
Local Open Scope string_scope.

Inductive _epanet_section_t := none | controls.

(** [_epanet_specialSections], looked up with [find]. *)
Definition _epanet_specialSections (title : string) : option _epanet_section_t :=
  if String.eqb title "CONTROLS" then Some controls else None.

Definition isLineTerminator (c : ascii) : bool :=
  Ascii.eqb c "010"%char || Ascii.eqb c "013"%char.

(** The regular expression of [_epanet_sectionFromLine] is an opening
    bracket, a captured group of any characters, and a closing bracket.
    This is its tail after the opening bracket: the group is greedy and
    does not cross a line terminator, so the capture runs to the last
    closing bracket of the terminator-free run. *)
Fixpoint captureToLastBracket (s : string) : option string :=
  match s with
  | EmptyString => None
  | String c rest =>
      if isLineTerminator c then None
      else match captureToLastBracket rest with
           | Some cap => Some (String c cap)
           | None => if Ascii.eqb c "]"%char then Some EmptyString else None
           end
  end.

(** [regex_search] with that expression: the leftmost opening bracket from
    which the expression matches; the result is the captured group. *)
Fixpoint bracketSearch (s : string) : option string :=
  match s with
  | EmptyString => None
  | String c rest =>
      if Ascii.eqb c "["%char then
        match captureToLastBracket rest with
        | Some cap => Some cap
        | None => bracketSearch rest
        end
      else bracketSearch rest
  end.

Fixpoint hasChar (c : ascii) (s : string) : bool :=
  match s with
  | EmptyString => false
  | String d rest => Ascii.eqb d c || hasChar c rest
  end.

Definition _epanet_sectionFromLine (line : string) : _epanet_section_t :=
  if hasChar "["%char line then
    match bracketSearch line with
    | Some sectionTitle =>
        match _epanet_specialSections sectionTitle with
        | Some section => section
        | None => none
        end
    | None => none
    end
  else none.

Fixpoint noTerminator (s : string) : bool :=
  match s with
  | EmptyString => true
  | String c rest => negb (isLineTerminator c) && noTerminator rest
  end.

End Exporter.

(** ** Notions used in the statements *)

Section Notions.

Context {A : Type} {db : DbAdapter A} {pq : PointQuality}
  {rt : Buffer.Retention}.

(** Everything but the adapter and the trace. *)
Definition cacheState (st : State A) :=
  (super st, _last_request st, _readOnly st, _filterType st, _opcFilter st,
   _opcFilterCodes st, _identifiersAndUnitsCache st, _lastIdRequest st,
   iterativeSearchMaxIterations st, iterativeSearchStride st).

Definition settings (st : State A) :=
  (_readOnly st, _filterType st, _opcFilter st, _opcFilterCodes st,
   iterativeSearchMaxIterations st, iterativeSearchStride st).

(** The operations that change a setting. *)
Definition isSetter (o : Op) : bool :=
  match o with
  | OpSetReadonly _ | OpSetOpcFilterType _ | OpClearOpcFilterList
  | OpAddOpcFilterCode _ | OpRemoveOpcFilterCode _ => true
  | _ => false
  end.

(** What the white list is said to do to a point it keeps: time, value and
    confidence stay, the quality becomes the override marker. *)
Definition overridden (p : Point) : Point :=
  {| time := time p; value := value p; quality := opc_rtx_override;
     confidence := confidence p; isValid := true |}.

(** The installed closure is the one of the reported filter type, except
    after a failed [setOpcFilterType (OpcNoFilter)]. *)
Definition filterInstalled (st : State A) : Prop :=
  _filterType st = OpcNoFilter \/ _opcFilter st = _filterType st.

(** A burst of listing requests, at the given clock readings. *)
Fixpoint pollRegistry (times : list Z) (st : State A)
  : list (gmap string Units) * State A :=
  match times with
  | [] => ([], st)
  | now :: rest =>
      let '(l, st1) := identifiersAndUnits now st in
      let '(ls, st2) := pollRegistry rest st1 in
      (l :: ls, st2)
  end.

(** Each request comes less than five seconds after the one before. *)
Fixpoint closelySpaced (previous : Z) (times : list Z) : Prop :=
  match times with
  | [] => True
  | now :: rest => now - previous < 5 /\ closelySpaced now rest
  end.

(** The guard "limit double-queries" at the top of [pointsInRange]. *)
Definition memoCovers (st : State A) (id : string) (qrange : TimeRange) : bool :=
  containsRange (req_range (_last_request st)) qrange
  && String.eqb (req_id (_last_request st)) id.

(** The window that [point] asks the adapter for. *)
Definition pointWindow (t : Z) : TimeRange :=
  mkRange (t - 60 * 60 * 12) (t + 60 * 60 * 12).



(** Probe the windows in turn and stop at the first non-empty answer. *)
Fixpoint probeUntilFound (id : string) (windows : list TimeRange) (st : State A)
  : list Point * State A :=
  match windows with
  | [] => ([], st)
  | w :: rest =>
      let '(points, st') := pointsInRange id w st in
      match points with
      | [] => probeUntilFound id rest st'
      | _ :: _ => (points, st')
      end
  end.

Definition latest (points : list Point) : Point :=
  match points with
  | [] => Point_default
  | x :: rest => List.last rest x
  end.


Definition fetchFiltered (st : State A) (id : string) (w : TimeRange) : list Point :=
  pointsWithOpcFilter st (selectRange (_adapter st) id w).

(** The three parts of [merged], concatenated. *)
Definition assemble (st : State A) (id : string) (q : TimeRange) : list Point :=
  let range := Buffer.range (super st) id in
  match intersection range q with
  | intersect_left =>
      fetchFiltered st id (mkRange (range_start q) (range_start range))
      ++ super_pointsInRange st id (mkRange (range_start range) (range_end q))
  | intersect_right =>
      super_pointsInRange st id (mkRange (range_start q) (range_end range))
      ++ fetchFiltered st id (mkRange (range_end range) (range_end q))
  | intersect_other_external =>
      fetchFiltered st id (mkRange (range_start q) (range_start range))
      ++ super_pointsInRange st id range
      ++ fetchFiltered st id (mkRange (range_end range) (range_end q))
  | _ => fetchFiltered st id q
  end.

(** The ranges asked of the adapter, in order. *)
Definition gapQueries (range q : TimeRange) : list TimeRange :=
  match intersection range q with
  | intersect_left => [mkRange (range_start q) (range_start range)]
  | intersect_right => [mkRange (range_end range) (range_end q)]
  | intersect_other_external =>
      [mkRange (range_start q) (range_start range);
       mkRange (range_end range) (range_end q)]
  | intersect_other_internal => []
  | intersect_none => [q]
  end.

Definition traced (cs : list AdapterCall) (st : State A) : State A :=
  foldl (fun s c => adapter_call c (_adapter s) s) st cs.

Definition memoAfter (id : string) (q : TimeRange) (deDuped : list Point)
  : request_t :=
  match deDuped with
  | [] => request_new id TimeRange_empty
  | _ :: _ => request_new id q
  end.

(** What the idempotence of range lookups asks of the adapter: answers
    ordered by time, inside the range that was asked for. *)
Definition answersInOrder (a : A) (id : string) : Prop :=
  forall w, StronglySorted Z.le (time <$> selectRange a id w)
            /\ Forall (fun p => Buffer.inRange w p = true) (selectRange a id w).

(** The points that [pointsInRange id q] returns are buffered when the
    call is over: the tier has evicted none of them. *)
Definition resultRetained (id : string) (q : TimeRange) (st : State A) : Prop :=
  Forall (fun p => Buffer.point (super (pointsInRange id q st).2) id (time p)
                   = Some p)
    (pointsInRange id q st).1.



(** Between [st] and [st'] the adapter was only sent calls accepted by [P]. *)
Definition sends (P : AdapterCall -> bool) (st st' : State A) : Prop :=
  exists cs, calls st' = calls st ++ cs /\ forallb P cs = true.

(** Calls a lookup may send. *)
Definition isLookupCall (c : AdapterCall) : bool :=
  match c with
  | CallDoConnect | CallIdUnitsList | CallSelectRange _ _
  | CallSelectNext _ _ | CallSelectPrevious _ _ => true
  | _ => false
  end.

(** Calls registration may send. *)
Definition isRegistryCall (c : AdapterCall) : bool :=
  match c with
  | CallDoConnect | CallIdUnitsList | CallInsertIdentifierAndUnits _ _
  | CallAssignUnitsToRecord _ _ => true
  | _ => false
  end.

(** Calls that add or remove points or identifiers in the store. *)
Definition isDataWrite (c : AdapterCall) : bool :=
  match c with
  | CallInsertSingle _ _ | CallInsertRange _ _ | CallRemoveRecord _
  | CallInsertIdentifierAndUnits _ _ => true
  | _ => false
  end.

Definition isLookup (o : Op) : bool :=
  match o with
  | OpIdentifiersAndUnits _ | OpPoint _ _ | OpPointBefore _ _
  | OpPointAfter _ _ | OpPointsInRange _ _ => true
  | _ => false
  end.

(** Calls that read a range. *)
Definition isRangeCall (c : AdapterCall) : bool :=
  match c with
  | CallDoConnect | CallSelectRange _ _ => true
  | _ => false
  end.

Definition isConnectCall (c : AdapterCall) : bool :=
  match c with
  | CallDoConnect => true
  | _ => false
  end.

(** The buffer invariant, as a property of the record. *)
Definition bufferOrdered (st : State A) : Prop := Buffer.wf (super st).

End Notions.

(** ** Concrete records *)

Module Runs.

(** Stand-ins for the two quality markers, whose values are not in the
    sources; the runs below only use that they differ from the codes 0
    and 1. *)
Definition markers : PointQuality := mkPointQuality 128 255.

(** A buffer that keeps the hundred latest points of a series, and one
    that keeps only the latest. *)
Definition retention : Buffer.Retention := Buffer.mostRecent 100.

Definition scarce : Buffer.Retention := Buffer.mostRecent 1.

Definition db : DbAdapter Mock.t := Mock.adapter Mock.writable 255 false.

(** A writable store that cannot assign units to an existing record. *)
Definition dbNoAssign : DbAdapter Mock.t :=
  Mock.adapter (mkOptions true false false true false) 255 false.

Definition p100 : Point := mkPoint 100 1 0 1 true.
Definition p200 : Point := mkPoint 200 2 0 1 true.

Definition emptyStore : Mock.t := Mock.mk true 0 ∅ ∅.

Definition fresh : State Mock.t := @DbPointRecord_new Mock.t markers emptyStore 0.

(** The adapter drops its connection and needs [d] failed attempts before
    it accepts one again. *)
Definition dropConnection (d : nat) (st : State Mock.t) : State Mock.t :=
  mkState (super st) (_last_request st) (_readOnly st) (_filterType st)
    (_opcFilter st) (_opcFilterCodes st) (_identifiersAndUnitsCache st)
    (_lastIdRequest st) (iterativeSearchMaxIterations st)
    (iterativeSearchStride st)
    (Mock.mk false d (Mock.store (_adapter st)) (Mock.registry (_adapter st)))
    (calls st).

(** Two points written through the record: buffer and store both hold them. *)
Definition stored : State Mock.t :=
  @run Mock.t db markers retention [OpAddPoints "A" [p100; p200]] fresh.

Definition lostConnection : State Mock.t := dropConnection 0 stored.

Definition unreachable : State Mock.t := dropConnection 10 fresh.



(** A connected store that holds two points; nothing is buffered. *)
Definition unread : State Mock.t :=
  @DbPointRecord_new Mock.t markers
    (Mock.mk true 0 {["A" := [p100; p200]]} ∅) 0.

(** A connected store whose rows are not in time order. *)
Definition unordered : State Mock.t :=
  @DbPointRecord_new Mock.t markers
    (Mock.mk true 0 {["A" := [p200; p100]]} ∅) 0.

(** A store that lists the series "x" with assigned units. *)
Definition listed : State Mock.t :=
  @DbPointRecord_new Mock.t markers
    (Mock.mk true 0 ∅ {["x" := RTX_DIMENSIONED 1]}) 0.

Definition whiteListed : State Mock.t :=
  @run Mock.t db markers retention
    [OpSetOpcFilterType OpcWhiteList; OpAddOpcFilterCode 0] fresh.

Definition good : Point := mkPoint 100 7 0 1 true.
Definition bad : Point := mkPoint 200 9 1 1 true.

(** A store that declares itself read-only. *)
Definition dbReadOnly : DbAdapter Mock.t :=
  Mock.adapter (mkOptions true true false true true) 255 false.

(** A store that prefers iterative search and has no singly-bound query. *)
Definition dbIterative : DbAdapter Mock.t :=
  Mock.adapter (mkOptions true true true false false) 255 false.

(** A store with neither kind of bound query. *)
Definition dbPlain : DbAdapter Mock.t :=
  Mock.adapter (mkOptions true true false false false) 255 false.



(** A writable store whose failed connection attempts raise. *)
Definition dbFaulty : DbAdapter Mock.t := Mock.adapter Mock.writable 255 true.

End Runs.

(** * Properties *)

(** ** The connection loop *)

Section ConnectionFacts.

Context {A : Type} {db : DbAdapter A}.

Lemma checkConnected_loop_cacheState fuel iTry (st : State A) :
  cacheState (checkConnected_loop fuel iTry st) = cacheState st.
Proof.
  revert iTry st. induction fuel as [|fuel IH]; intros iTry st; simpl; [done|].
  case_match; [|done]. by rewrite IH.
Qed.

Lemma checkConnected_cacheState (st : State A) :
  cacheState (checkConnected st).2 = cacheState st.
Proof. apply checkConnected_loop_cacheState. Qed.

(** At most [_DB_MAX_CONNECT_TRY - 1] attempts are made. *)
Lemma checkConnected_loop_attempts fuel iTry (st : State A) :
  0 <= iTry ->
  exists k : nat,
    calls (checkConnected_loop fuel iTry st)
    = calls st ++ replicate k CallDoConnect
    /\ _adapter (checkConnected_loop fuel iTry st)
       = Nat.iter k doConnect (_adapter st)
    /\ Z.of_nat k <= Z.max 0 (_DB_MAX_CONNECT_TRY - 1 - iTry).
Proof.
  revert iTry st. induction fuel as [|fuel IH]; intros iTry st Hi; simpl.
  - exists 0%nat. split_and!; [by rewrite app_nil_r | done | lia].
  - destruct (negb _ && (iTry + 1 <? _DB_MAX_CONNECT_TRY)) eqn:Hgo.
    + apply andb_true_iff in Hgo as [_ Hlt]. apply Z.ltb_lt in Hlt.
      destruct (IH (iTry + 1) (dbConnect st)) as (k & Hc & Ha & Hk); [lia|].
      exists (S k). rewrite Hc, Ha. split_and!.
      * simpl. by rewrite <- app_assoc.
      * rewrite Nat.iter_succ_r. reflexivity.
      * lia.
    + exists 0%nat. split_and!; [by rewrite app_nil_r | done | lia].
Qed.

Lemma checkConnected_attempts (st : State A) :
  exists k : nat,
    (k <= 4)%nat
    /\ calls (checkConnected st).2 = calls st ++ replicate k CallDoConnect
    /\ _adapter (checkConnected st).2 = Nat.iter k doConnect (_adapter st).
Proof.
  destruct (checkConnected_loop_attempts
              (Z.to_nat _DB_MAX_CONNECT_TRY) 0 st) as (k & Hc & Ha & Hk); [done|].
  exists k. split_and!; [|done..]. unfold _DB_MAX_CONNECT_TRY in Hk. lia.
Qed.

(** A connected adapter is left alone. *)
Lemma checkConnected_connected (st : State A) :
  adapterConnected (_adapter st) = true ->
  checkConnected st = (true, st).
Proof.
  intros H. unfold checkConnected, isConnected. simpl.
  rewrite H. simpl. by rewrite H.
Qed.

End ConnectionFacts.

(** ** Settings that lookups and writes leave alone *)

Section SettingsFacts.

Context {A : Type} {db : DbAdapter A} {pq : PointQuality}
  {rt : Buffer.Retention}.

Lemma checkConnected_settings (st : State A) :
  settings (checkConnected st).2 = settings st.
Proof.
  pose proof (checkConnected_cacheState st) as H.
  unfold cacheState in H. unfold settings. congruence.
Qed.

(** Split on every connection check and every branch in the goal. *)
Ltac split_branches :=
  repeat match goal with
    | |- context [checkConnected ?s] =>
        let H := fresh "Hconn" in
        pose proof (checkConnected_settings s) as H;
        destruct (checkConnected s) as [? ?]; simpl in H
    | |- context [match ?x with _ => _ end] => destruct x eqn:?
    | |- context [if ?x then _ else _] => destruct x eqn:?
    end; simpl in *.

Ltac settle :=
  unfold settings in *; simpl in *; simplify_eq; first [done | congruence].

Lemma pointsInRange_settings id q (st : State A) :
  settings (pointsInRange id q st).2 = settings st.
Proof.
  unfold pointsInRange, adapter_selectRange.
  split_branches; settle.
Qed.

Lemma point_settings id t (st : State A) :
  settings (point id t st).2 = settings st.
Proof.
  unfold point, adapter_selectRange.
  split_branches; settle.
Qed.

Lemma search_loop_settings fuel id step pts r limit (st : State A) :
  settings (search_loop fuel id step pts r limit st).2 = settings st.
Proof.
  revert pts r limit st.
  induction fuel as [|fuel IH]; intros pts r limit st; simpl; [done|].
  case_match; [|done].
  pose proof (pointsInRange_settings id r st) as Hp.
  destruct (pointsInRange id r st) as [pts' st']. simpl in Hp.
  rewrite IH. settle.
Qed.

Lemma searchPreviousIteratively_settings id t (st : State A) :
  settings (searchPreviousIteratively id t st).2 = settings st.
Proof.
  unfold searchPreviousIteratively.
  pose proof (checkConnected_settings st) as Hc.
  destruct (checkConnected st) as [c st1]. simpl in Hc.
  destruct c; simpl; [|settle].
  match goal with |- context [search_loop ?f ?i ?s ?p ?r ?l ?x] =>
    pose proof (search_loop_settings f i s p r l x) as Hs;
    destruct (search_loop f i s p r l x) as [pts st2] end.
  simpl in Hs. destruct pts; settle.
Qed.

Lemma searchNextIteratively_settings id t (st : State A) :
  settings (searchNextIteratively id t st).2 = settings st.
Proof.
  unfold searchNextIteratively.
  pose proof (checkConnected_settings st) as Hc.
  destruct (checkConnected st) as [c st1]. simpl in Hc.
  destruct c; simpl; [|settle].
  match goal with |- context [search_loop ?f ?i ?s ?p ?r ?l ?x] =>
    pose proof (search_loop_settings f i s p r l x) as Hs;
    destruct (search_loop f i s p r l x) as [pts st2] end.
  simpl in Hs. destruct pts; settle.
Qed.

Lemma pointBefore_settings id t (st : State A) :
  settings (pointBefore id t st).2 = settings st.
Proof.
  unfold pointBefore.
  destruct (isValid (super_pointBefore st id t)); [done|].
  destruct (request_contains _ _ _); [done|].
  pose proof (checkConnected_settings st) as Hc.
  destruct (checkConnected st) as [c st1]. simpl in Hc.
  destruct c; simpl; [|settle].
  pose proof (searchPreviousIteratively_settings id t st1) as Hs.
  destruct (searchPreviousIteratively id t st1) as [p1 st2]. simpl in Hs.
  repeat (case_match; simplify_eq; simpl in *); settle.
Qed.

Lemma pointAfter_settings id t (st : State A) :
  settings (pointAfter id t st).2 = settings st.
Proof.
  unfold pointAfter.
  destruct (isValid (super_pointAfter st id t)); [done|].
  destruct (request_contains _ _ _); [done|].
  pose proof (checkConnected_settings st) as Hc.
  destruct (checkConnected st) as [c st1]. simpl in Hc.
  destruct c; simpl; [|settle].
  pose proof (searchNextIteratively_settings id t st1) as Hs.
  destruct (searchNextIteratively id t st1) as [p1 st2]. simpl in Hs.
  repeat (case_match; simplify_eq; simpl in *); settle.
Qed.

Lemma identifiersAndUnits_settings now (st : State A) :
  settings (identifiersAndUnits now st).2 = settings st.
Proof.
  unfold identifiersAndUnits. split_branches; settle.
Qed.

Lemma super_register_settings name u (st : State A) :
  settings (super_register name u st).2 = settings st.
Proof. done. Qed.

Lemma register_settings name u now (st : State A) :
  settings (registerAndGetIdentifierForSeriesWithUnits name u now st).2
  = settings st.
Proof.
  unfold registerAndGetIdentifierForSeriesWithUnits.
  destruct (String.length name =? 0)%nat; [done|].
  pose proof (checkConnected_settings st) as Hc.
  destruct (checkConnected st) as [c st1]. simpl in Hc.
  destruct c; simpl; [|settle].
  pose proof (identifiersAndUnits_settings now st1) as Hi.
  destruct (identifiersAndUnits now st1) as [l st2]. simpl in Hi.
  repeat (case_match; simplify_eq; simpl in *); settle.
Qed.

Lemma reset_id_settings id (st : State A) :
  settings (reset_id id st) = settings st.
Proof. unfold reset_id. split_branches; settle. Qed.

Lemma run_op_settings (o : Op) (st : State A) :
  isSetter o = false ->
  settings (run_op o st) = settings st.
Proof.
  intros Hne. destruct o; simpl; try done;
    try (by apply pointsInRange_settings);
    try (by apply point_settings);
    try (by apply pointBefore_settings);
    try (by apply pointAfter_settings);
    try (by apply register_settings);
    try (by apply identifiersAndUnits_settings);
    try (by apply reset_id_settings).
  - unfold beginBulkOperation. split_branches; settle.
  - unfold endBulkOperation. split_branches; settle.
  - unfold addPoint. split_branches; settle.
  - unfold addPoints. split_branches; settle.
  - unfold reset. split_branches; settle.
  - unfold invalidate.
    destruct (negb (readonly st)); [|done].
    pose proof (checkConnected_settings st) as Hc.
    destruct (checkConnected st) as [c st1]. simpl in Hc.
    destruct c; simpl; [|settle]. rewrite reset_id_settings. settle.
Qed.

Lemma run_op_readOnly (o : Op) (st : State A) :
  (forall b, o <> OpSetReadonly b) ->
  _readOnly (run_op o st) = _readOnly st.
Proof.
  intros Hne. destruct (isSetter o) eqn:Hs.
  - destruct o; try discriminate; simpl.
    + by destruct (Hne readOnly).
    + unfold setOpcFilterType.
      destruct (decide _); [destruct (opcFilters ty)|]; done.
    + done.
    + done.
    + unfold removeOpcFilterCode. by destruct (decide _).
  - pose proof (run_op_settings o st Hs) as H. unfold settings in H. congruence.
Qed.

End SettingsFacts.

Section ReadonlyPolicy.

Context {A : Type} {db : DbAdapter A} {pq : PointQuality}
  {rt : Buffer.Retention}.

Lemma lastRequestedReadonly_step (o : Op) (st : State A) :
  implementationReadonly (options (A:=A)) = false ->
  forall ops,
    lastRequestedReadonly (_readOnly (run_op o st)) ops
    = lastRequestedReadonly (_readOnly st) (o :: ops).
Proof.
  intros Hrw ops. destruct o;
    try (rewrite run_op_readOnly by (intros b; discriminate); reflexivity).
  simpl. unfold setReadonly. by rewrite Hrw.
Qed.

(** C6.  After any history of calls on the record, [readonly()] answers
    [true] when the adapter declares [implementationReadonly]; otherwise it
    answers the value most recently passed to [setReadonly] (the value of
    [_readOnly] at the start of the history when [setReadonly] was never
    called). *)
Theorem readonly_effective (ops : list Op) (st : State A) :
  readonly (run ops st)
  = if implementationReadonly (options (A:=A)) then true
    else lastRequestedReadonly (_readOnly st) ops.
Proof.
  unfold readonly.
  destruct (implementationReadonly options) eqn:Hro; [reflexivity|].
  revert st. induction ops as [|o ops IH]; intros st; [reflexivity|].
  change (run (o :: ops) st) with (run ops (run_op o st)).
  rewrite IH. by apply lastRequestedReadonly_step.
Qed.

End ReadonlyPolicy.

(** ** The quality filter *)

Section FilterFacts.

Context {A : Type} {db : DbAdapter A} {pq : PointQuality}
  {rt : Buffer.Retention}.

Lemma filterInstalled_new (a : A) t0 : filterInstalled (DbPointRecord_new a t0).
Proof. by right. Qed.

Lemma filterInstalled_run_op (o : Op) (st : State A) :
  filterInstalled st -> filterInstalled (run_op o st).
Proof.
  unfold filterInstalled. intros Hst.
  destruct (isSetter o) eqn:Hs.
  - destruct o; try discriminate; simpl.
    + unfold setReadonly. by destruct (implementationReadonly options).
    + unfold setOpcFilterType.
      destruct (decide _) as [Hne|Heq]; [|done].
      destruct ty; simpl; auto.
    + done.
    + done.
    + unfold removeOpcFilterCode. by destruct (decide _).
  - pose proof (run_op_settings o st Hs) as H. unfold settings in H.
    simplify_eq. congruence.
Qed.

Lemma filterInstalled_run (ops : list Op) (st : State A) :
  filterInstalled st -> filterInstalled (run ops st).
Proof.
  revert st. induction ops as [|o ops IH]; intros st Hst; [done|].
  apply IH, filterInstalled_run_op, Hst.
Qed.

Lemma pointsWithOpcFilter_whitelist (st : State A) (points : list Point) :
  _opcFilter st = OpcWhiteList ->
  pointsWithOpcFilter st points
  = map overridden (filter (fun p => quality p ∈ _opcFilterCodes st) points).
Proof.
  intros Hf. induction points as [|p rest IH]; [done|].
  simpl. unfold pointWithOpcFilter. rewrite Hf. simpl.
  rewrite filter_cons. destruct (decide (quality p ∈ _opcFilterCodes st)); simpl.
  - by rewrite IH.
  - by rewrite IH.
Qed.

(** C8.  On a record built by the constructor and driven through any
    history of calls after which the filter type is [OpcWhiteList], the
    filter pipeline returns, in order, exactly the raw points whose quality
    code is in the configured code set, each with its time, value and
    confidence kept and its quality replaced by [opc_rtx_override]; every
    other point is absent. *)
Theorem whitelist_keeps_listed_codes
    (a : A) (t0 : Z) (ops : list Op) (raw : list Point) :
  let st := run ops (DbPointRecord_new a t0) in
  opcFilterType st = OpcWhiteList ->
  pointsWithOpcFilter st raw
  = map overridden (filter (fun p => quality p ∈ opcFilterList st) raw).
Proof.
  intros st Hty. apply pointsWithOpcFilter_whitelist.
  destruct (filterInstalled_run ops _ (filterInstalled_new a t0)) as [H|H];
    fold st in H; unfold opcFilterType in Hty; congruence.
Qed.

End FilterFacts.

(** ** The registry listing *)

Section RegistryFacts.

Context {A : Type} {db : DbAdapter A} {pq : PointQuality}
  {rt : Buffer.Retention}.

Lemma identifiersAndUnits_hit now (st : State A) :
  now - _lastIdRequest st < 5 ->
  _identifiersAndUnitsCache st <> ∅ ->
  identifiersAndUnits now st
  = (_identifiersAndUnitsCache st, with_lastIdRequest now st).
Proof.
  intros Hs Hne. unfold identifiersAndUnits. simpl.
  rewrite (proj2 (Z.ltb_lt _ _) Hs).
  by rewrite bool_decide_eq_false_2.
Qed.

Lemma identifiersAndUnits_miss now (st : State A) :
  5 <= now - _lastIdRequest st \/ _identifiersAndUnitsCache st = ∅ ->
  identifiersAndUnits now st
  = let '(connected, st1) := checkConnected (with_lastIdRequest now st) in
    if connected then
      (idUnitsList (_adapter st1),
       with_idCache (idUnitsList (_adapter st1))
         (adapter_call CallIdUnitsList (_adapter st1) st1))
    else (_identifiersAndUnitsCache st1, st1).
Proof.
  intros Hs. unfold identifiersAndUnits. simpl.
  destruct Hs as [Hs|Hs].
  - by rewrite (proj2 (Z.ltb_ge _ _) Hs).
  - rewrite bool_decide_eq_true_2 by done. by rewrite andb_false_r.
Qed.

Lemma pollRegistry_hits times (st : State A) :
  _identifiersAndUnitsCache st <> ∅ ->
  closelySpaced (_lastIdRequest st) times ->
  Forall (fun l => l = _identifiersAndUnitsCache st) (pollRegistry times st).1
  /\ calls (pollRegistry times st).2 = calls st
  /\ _adapter (pollRegistry times st).2 = _adapter st.
Proof.
  revert st. induction times as [|now rest IH]; intros st Hne Hsp; simpl.
  - by split_and!.
  - destruct Hsp as [Hnow Hrest].
    rewrite identifiersAndUnits_hit by done.
    destruct (IH (with_lastIdRequest now st)) as (Hl & Hc & Ha); [done..|].
    destruct (pollRegistry rest (with_lastIdRequest now st)) as [ls st2].
    simpl in *. split_and!; [|done..].
    by constructor.
Qed.

End RegistryFacts.

(** ** Range lookups: which tier answers *)

Section RangeFacts.

Context {A : Type} {db : DbAdapter A} {pq : PointQuality}
  {rt : Buffer.Retention}.

(** The filter only reads the installed closure and the code set. *)
Lemma pointsWithOpcFilter_ext (st st' : State A) (raw : list Point) :
  _opcFilter st = _opcFilter st' ->
  _opcFilterCodes st = _opcFilterCodes st' ->
  pointsWithOpcFilter st raw = pointsWithOpcFilter st' raw.
Proof.
  intros Hf Hc. induction raw as [|p raw IH]; [done|].
  simpl. unfold pointWithOpcFilter. rewrite Hf, Hc, IH. done.
Qed.

Lemma pointsInRange_covered id q (st : State A) :
  memoCovers st id q = true ->
  pointsInRange id q st = (super_pointsInRange st id q, st).
Proof. unfold memoCovers, pointsInRange. by intros ->. Qed.

Lemma checkConnected_super (st : State A) :
  super (checkConnected st).2 = super st.
Proof.
  pose proof (checkConnected_cacheState st) as H.
  unfold cacheState in H. congruence.
Qed.


Lemma pointsInRange_internal id q (st : State A) :
  memoCovers st id q = false ->
  intersection (Buffer.range (super st) id) q = intersect_other_internal ->
  pointsInRange id q st = (super_pointsInRange st id q, (checkConnected st).2).
Proof.
  unfold memoCovers, pointsInRange. intros -> Hi.
  pose proof (checkConnected_super st) as Hs.
  destruct (checkConnected st) as [c st1]. simpl in *.
  unfold super_pointsInRange. rewrite Hs, Hi. by destruct c.
Qed.

Lemma pointsInRange_left id q (st : State A) :
  memoCovers st id q = false ->
  (checkConnected st).1 = true ->
  intersection (Buffer.range (super st) id) q = intersect_left ->
  let st1 := (checkConnected st).2 in
  let range := Buffer.range (super st) id in
  let gap := mkRange (range_start q) (range_start range) in
  let st2 := adapter_call (CallSelectRange id gap) (_adapter st1) st1 in
  let fetched := pointsWithOpcFilter st1 (selectRange (_adapter st1) id gap) in
  let buffered :=
    super_pointsInRange st id (mkRange (range_start range) (range_end q)) in
  let deDuped := deDupe q ∅ (fetched ++ buffered) in
  pointsInRange id q st
  = (deDuped,
     super_addPoints id deDuped
       (with_last_request
          (match deDuped with
           | [] => request_new id TimeRange_empty
           | _ :: _ => request_new id q
           end) st2)).
Proof.
  unfold memoCovers, pointsInRange. intros -> Hc Hi.
  pose proof (checkConnected_super st) as Hs.
  destruct (checkConnected st) as [c st1]. simpl in *. subst c. simpl.
  rewrite Hs, Hi. simpl. unfold super_pointsInRange. simpl.
  rewrite Hs.
  by rewrite (pointsWithOpcFilter_ext
                (adapter_call (CallSelectRange id
                   (mkRange (range_start q)
                      (range_start (Buffer.range (super st) id))))
                   (_adapter st1) st1) st1).
Qed.

End RangeFacts.

Section RangeClaims.

Context {A : Type} {db : DbAdapter A} {pq : PointQuality}
  {rt : Buffer.Retention}.

(** C4, as amended.  When the memoized request is for the same identifier
    and covers the query range, [pointsInRange] returns the buffer's points
    and leaves the whole record, adapter and trace included, untouched.
    When only the classification against the buffered span is "internal",
    the answer is again the buffer's, the cache state is unchanged and no
    query reaches the adapter; the adapter sees nothing but the at most
    four [doConnect] attempts of the connection check, and none at all
    when it is already connected. *)
Theorem pointsInRange_buffer_only id q (st : State A) :
  (memoCovers st id q = true ->
   pointsInRange id q st = (super_pointsInRange st id q, st))
  /\ (memoCovers st id q = false ->
      intersection (Buffer.range (super st) id) q = intersect_other_internal ->
      (pointsInRange id q st).1 = super_pointsInRange st id q
      /\ cacheState (pointsInRange id q st).2 = cacheState st
      /\ (exists k : nat,
            (k <= 4)%nat
            /\ calls (pointsInRange id q st).2
               = calls st ++ replicate k CallDoConnect
            /\ _adapter (pointsInRange id q st).2
               = Nat.iter k doConnect (_adapter st))
      /\ (adapterConnected (_adapter st) = true ->
          (pointsInRange id q st).2 = st)).
Proof.
  split; [apply pointsInRange_covered|].
  intros Hm Hi. rewrite (pointsInRange_internal id q st Hm Hi).
  cbn [fst snd]. split_and!.
  - done.
  - apply checkConnected_cacheState.
  - apply checkConnected_attempts.
  - intros Hc. by rewrite (checkConnected_connected st Hc).
Qed.

(** C5, as amended.  When the connection check succeeds and the query is
    classified as a left overlap of the buffered span, the adapter is asked
    once, for the gap from the start of the query to the start of the
    buffered span; the buffer supplies the points from the start of the
    buffered span to the end of the query; the result is the gap points
    followed by the buffered points, de-duplicated by timestamp (first
    occurrence kept) and restricted to the query range. *)
Theorem pointsInRange_left_overlap id q (st : State A) :
  memoCovers st id q = false ->
  (checkConnected st).1 = true ->
  intersection (Buffer.range (super st) id) q = intersect_left ->
  let st1 := (checkConnected st).2 in
  let range := Buffer.range (super st) id in
  let gap := mkRange (range_start q) (range_start range) in
  let fetched := pointsWithOpcFilter st (selectRange (_adapter st1) id gap) in
  let buffered :=
    super_pointsInRange st id (mkRange (range_start range) (range_end q)) in
  (pointsInRange id q st).1 = deDupe q ∅ (fetched ++ buffered)
  /\ calls (pointsInRange id q st).2 = calls st1 ++ [CallSelectRange id gap]
  /\ _adapter (pointsInRange id q st).2 = _adapter st1.
Proof.
  intros Hm Hc Hi. cbn zeta.
  rewrite (pointsInRange_left id q st Hm Hc Hi). cbn [fst snd].
  pose proof (checkConnected_cacheState st) as Hcs. unfold cacheState in Hcs.
  rewrite (pointsWithOpcFilter_ext (checkConnected st).2 st) by congruence.
  done.
Qed.

End RangeClaims.

(** ** Writes *)

Section WriteFacts.

Context {A : Type} {db : DbAdapter A} {pq : PointQuality}
  {rt : Buffer.Retention}.

(** The retry loop with its exception: [k] attempts are made, each on an
    adapter that reports no connection; either the last of them raises, or
    none does and the loop returns. *)
Lemma raising_loop_outcome fuel iTry (st : State A) :
  0 <= iTry -> _DB_MAX_CONNECT_TRY - iTry <= Z.of_nat fuel ->
  exists (k : nat) (st1 : State A),
    Z.of_nat k <= Z.max 0 (_DB_MAX_CONNECT_TRY - 1 - iTry)
    /\ calls st1 = calls st ++ replicate k CallDoConnect
    /\ _adapter st1 = Nat.iter k doConnect (_adapter st)
    /\ cacheState st1 = cacheState st
    /\ (forall j : nat, (j < k)%nat ->
          adapterConnected (Nat.iter j doConnect (_adapter st)) = false)
    /\ (forall j : nat, (S j < k)%nat ->
          doConnectThrows (Nat.iter j doConnect (_adapter st)) = false)
    /\ ((exists k' : nat,
           k = S k'
           /\ doConnectThrows (Nat.iter k' doConnect (_adapter st)) = true
           /\ Raising.checkConnected_loop fuel iTry st = Threw st1)
        \/ ((forall j : nat, (j < k)%nat ->
               doConnectThrows (Nat.iter j doConnect (_adapter st)) = false)
            /\ (adapterConnected (_adapter st1) = false ->
                Z.of_nat k = Z.max 0 (_DB_MAX_CONNECT_TRY - 1 - iTry))
            /\ Raising.checkConnected_loop fuel iTry st = Returned st1)).
Proof.
  revert iTry st. induction fuel as [|fuel IH]; intros iTry st Hi Hf;
    unfold _DB_MAX_CONNECT_TRY in *.
  - exists 0%nat, st. simpl.
    split_and!; [lia | by rewrite app_nil_r | done | done | lia | lia |].
    right. split_and!; [lia | lia | done].
  - cbn [Raising.checkConnected_loop]. unfold _DB_MAX_CONNECT_TRY.
    destruct (adapterConnected (_adapter st)) eqn:Hc; cbn [negb andb].
    { exists 0%nat, st. simpl.
      split_and!; [lia | by rewrite app_nil_r | done | done | lia | lia |].
      right. split_and!; [lia | congruence | done]. }
    destruct (Z.ltb_spec (iTry + 1) 5) as [Hlt|Hge]; cycle 1.
    { exists 0%nat, st. simpl.
      split_and!; [lia | by rewrite app_nil_r | done | done | lia | lia |].
      right. split_and!; [lia | lia | done]. }
    unfold Raising.dbConnect.
    set (st' := adapter_call CallDoConnect (doConnect (_adapter st)) st).
    destruct (doConnectThrows (_adapter st)) eqn:Ht.
    { exists 1%nat, st'. simpl.
      split_and!; [lia | done | done | done | | lia |].
      - intros [|j] Hj; [done|lia].
      - left. exists 0%nat. by split_and!. }
    destruct (IH (iTry + 1) st') as
      (k & st1 & Hk & Hcalls & Ha & Hcache & Hj & Hn & Hout); [lia | lia |].
    exists (S k), st1. split_and!.
    + lia.
    + rewrite Hcalls. simpl. by rewrite <- app_assoc.
    + rewrite Ha. by rewrite Nat.iter_succ_r.
    + by rewrite Hcache.
    + intros [|j] Hjk; [done|]. rewrite Nat.iter_succ_r. apply Hj. lia.
    + intros [|j] Hjk; [done|]. rewrite Nat.iter_succ_r. apply Hn. lia.
    + destruct Hout as [(k' & -> & Hthrow & Hres)|(Hnone & Hlast & Hres)].
      * left. exists (S k'). rewrite Nat.iter_succ_r. by split_and!.
      * right. split_and!; [| |done].
        -- intros [|j] Hjk; [done|]. rewrite Nat.iter_succ_r. apply Hnone. lia.
        -- intros Hd. specialize (Hlast Hd). simpl in Hlast. lia.
Qed.

Lemma raising_checkConnected_loop_returns fuel iTry (st : State A) :
  (forall a : A, doConnectThrows a = false) ->
  Raising.checkConnected_loop fuel iTry st
  = Returned (checkConnected_loop fuel iTry st).
Proof.
  intros Hn. revert iTry st. induction fuel as [|fuel IH]; intros iTry st;
    simpl; [done|].
  destruct (negb _ && _); [|done].
  unfold Raising.dbConnect. rewrite Hn. apply IH.
Qed.

(** When no connection attempt raises, the members with exceptions are the
    members of the record. *)
Lemma raising_writes_return id p ps (st : State A) :
  (forall a : A, doConnectThrows a = false) ->
  Raising.checkConnected st = Returned (checkConnected st).2
  /\ Raising.addPoint id p st = Returned (addPoint id p st)
  /\ Raising.addPoints id ps st = Returned (addPoints id ps st).
Proof.
  intros Hn.
  assert (Raising.checkConnected st = Returned (checkConnected st).2) as Hc
    by apply (raising_checkConnected_loop_returns _ _ _ Hn).
  unfold Raising.addPoint, Raising.addPoints, addPoint, addPoints.
  rewrite Hc. unfold checkConnected. cbn [fst snd].
  split_and!; [done|by repeat case_match..].
Qed.

(** C7, as amended.  On an effectively read-only record [addPoint] and
    [addPoints] return at once and leave the record as it was.  On a
    writable record they first check the connection: [k <= 4] attempts are
    made, each on an adapter that reports no connection, and nothing but
    the adapter and the trace has changed when the check is over.  If the
    last of these attempts raises, the exception leaves [addPoint] and
    [addPoints] and nothing is written.  If none raises and the adapter
    still reports no connection after the fourth, they return and nothing
    is written.  Otherwise the points are written to the buffer and sent to
    the adapter with one [insertSingle], respectively one [insertRange]. *)
Theorem addPoint_addPoints_policy id p ps (st : State A) :
  (readonly st = true ->
   Raising.addPoint id p st = Returned st
   /\ Raising.addPoints id ps st = Returned st)
  /\ (readonly st = false ->
      exists (k : nat) (st1 : State A),
        (k <= 4)%nat
        /\ calls st1 = calls st ++ replicate k CallDoConnect
        /\ _adapter st1 = Nat.iter k doConnect (_adapter st)
        /\ cacheState st1 = cacheState st
        /\ (forall j : nat, (j < k)%nat ->
              adapterConnected (Nat.iter j doConnect (_adapter st)) = false)
        /\ (forall j : nat, (S j < k)%nat ->
              doConnectThrows (Nat.iter j doConnect (_adapter st)) = false)
        /\ ((exists k' : nat,
               k = S k'
               /\ doConnectThrows (Nat.iter k' doConnect (_adapter st)) = true
               /\ Raising.addPoint id p st = Threw st1
               /\ Raising.addPoints id ps st = Threw st1)
            \/ ((forall j : nat, (j < k)%nat ->
                   doConnectThrows (Nat.iter j doConnect (_adapter st)) = false)
                /\ if adapterConnected (_adapter st1)
                   then Raising.addPoint id p st
                        = Returned
                            (adapter_call (CallInsertSingle id p)
                               (insertSingle (_adapter st1) id p)
                               (super_addPoint id p st1))
                        /\ Raising.addPoints id ps st
                           = Returned
                               (adapter_call (CallInsertRange id ps)
                                  (insertRange (_adapter st1) id ps)
                                  (super_addPoints id ps st1))
                   else k = 4%nat
                        /\ Raising.addPoint id p st = Returned st1
                        /\ Raising.addPoints id ps st = Returned st1))).
Proof.
  unfold Raising.addPoint, Raising.addPoints. split.
  - by intros ->.
  - intros ->. cbn [negb]. unfold Raising.checkConnected.
    destruct (raising_loop_outcome (Z.to_nat _DB_MAX_CONNECT_TRY) 0 st)
      as (k & st1 & Hk & Hcalls & Ha & Hcache & Hj & Hn & Hout);
      [done | unfold _DB_MAX_CONNECT_TRY; lia |].
    exists k, st1.
    split_and!; [unfold _DB_MAX_CONNECT_TRY in Hk; lia | done..|].
    destruct Hout as [(k' & -> & Hthrow & ->)|(Hnone & Hlast & ->)].
    + left. exists k'. by split_and!.
    + right. split; [done|]. unfold isConnected.
      destruct (adapterConnected (_adapter st1)) eqn:Hc; [done|].
      split_and!; [|done..]. specialize (Hlast eq_refl).
      unfold _DB_MAX_CONNECT_TRY in Hlast. lia.
Qed.

End WriteFacts.

(** ** Single point lookups *)

Section PointFacts.

Context {A : Type} {db : DbAdapter A} {pq : PointQuality}
  {rt : Buffer.Retention}.




End PointFacts.

(** ** Iterative search *)

Section SearchFacts.

Context {A : Type} {db : DbAdapter A} {pq : PointQuality}
  {rt : Buffer.Retention}.

Lemma search_loop_found fuel id step points r limit (st : State A) :
  points <> [] ->
  search_loop fuel id step points r limit st = (points, st).
Proof.
  intros Hne. destruct fuel; simpl; [done|].
  by rewrite bool_decide_eq_false_2.
Qed.

Lemma shift_shift r d k :
  shift (shift r d) (Z.of_nat k * d) = shift r (Z.of_nat (S k) * d).
Proof. unfold shift. simpl. f_equal; lia. Qed.

Lemma search_loop_probes fuel id step r (st : State A) :
  search_loop fuel id step [] r (Z.of_nat fuel) st
  = probeUntilFound id
      (map (fun k : nat => shift r (Z.of_nat k * step)) (seq 0 fuel)) st.
Proof.
  revert r st. induction fuel as [|fuel IH]; intros r st; [done|].
  cbn [search_loop]. rewrite bool_decide_eq_true_2 by done.
  replace (0 <? Z.of_nat (S fuel)) with true by (symmetry; apply Z.ltb_lt; lia).
  cbn [andb seq map probeUntilFound].
  replace (shift r (Z.of_nat 0 * step)) with r
    by (destruct r; unfold shift; simpl; f_equal; lia).
  destruct (pointsInRange id r st) as [points st'].
  destruct points as [|x points].
  - replace (Z.of_nat (S fuel) - 1) with (Z.of_nat fuel) by lia.
    rewrite IH. f_equal. rewrite <- seq_shift, map_map.
    apply map_ext. intros k. apply shift_shift.
  - by apply search_loop_found.
Qed.

Lemma search_loop_limit id step r limit (st : State A) :
  search_loop (Z.to_nat limit) id step [] r limit st
  = probeUntilFound id
      (map (fun k : nat => shift r (Z.of_nat k * step)) (seq 0 (Z.to_nat limit)))
      st.
Proof.
  destruct (Z.le_gt_cases limit 0) as [Hle|Hgt].
  - replace (Z.to_nat limit) with 0%nat by lia. done.
  - rewrite <- search_loop_probes. f_equal. lia.
Qed.

End SearchFacts.

(** ** Registration *)

Section RegistrationFacts.

Context {A : Type} {db : DbAdapter A} {pq : PointQuality}
  {rt : Buffer.Retention}.

(** On a writable, connected store, a name that is listed with other units
    is never removed: [existingUnits] still holds its initial value
    [RTX_NO_UNITS] when it is tested, so the branch that assigns units (or
    gives up) is always the one taken. *)
Lemma register_units_mismatch name units existing now (st : State A) :
  name <> "" ->
  adapterConnected (_adapter st) = true ->
  readonly st = false ->
  (identifiersAndUnits now st).1 !! name = Some existing ->
  existing <> units ->
  let st2 := (identifiersAndUnits now st).2 in
  registerAndGetIdentifierForSeriesWithUnits name units now st
  = if canAssignUnits (options (A:=A)) then
      let '(ok, a) := assignUnitsToRecord (_adapter st2) name units in
      (ok, adapter_call (CallAssignUnitsToRecord name units) a st2)
    else (false, st2).
Proof.
  intros Hname Hc Hro Hl Hne. cbn zeta.
  unfold registerAndGetIdentifierForSeriesWithUnits.
  destruct name as [|c name]; [done|]. cbn [String.length Nat.eqb].
  rewrite (checkConnected_connected st Hc). cbn [negb].
  pose proof (identifiersAndUnits_settings now st) as Hs.
  destruct (identifiersAndUnits now st) as [l st2]. cbn [fst snd] in *.
  unfold doesHaveIdUnits. rewrite Hl.
  rewrite bool_decide_eq_false_2 by done.
  assert (readonly st2 = false) as ->.
  { unfold readonly in *. unfold settings in Hs.
    destruct (implementationReadonly options); [done|]. congruence. }
  cbn [andb negb]. rewrite bool_decide_eq_true_2 by done.
  done.
Qed.

End RegistrationFacts.

(** ** Ordered series *)

Section SeriesFacts.

Lemma StronglySorted_sublist {X} (R : relation X) (l1 l2 : list X) :
  l1 `sublist_of` l2 -> StronglySorted R l2 -> StronglySorted R l1.
Proof.
  induction 1 as [|x l1 l2 Hsub IH|x l1 l2 Hsub IH]; intros Hs.
  - done.
  - apply StronglySorted_cons in Hs as [Hall Hs].
    apply StronglySorted_cons. split; [|by apply IH].
    rewrite Forall_forall in *. intros y Hy. apply Hall.
    by eapply elem_of_sublist.
  - apply StronglySorted_cons in Hs as [_ Hs]. by apply IH.
Qed.

Lemma ordered_filter (P : Point -> Prop) `{!forall p, Decision (P p)} l :
  Buffer.ordered l -> Buffer.ordered (filter P l).
Proof.
  unfold Buffer.ordered. apply StronglySorted_sublist.
  apply fmap_sublist, sublist_filter.
Qed.

Lemma find_Some t l p : Buffer.find t l = Some p -> time p = t /\ p ∈ l.
Proof.
  induction l as [|x l IH]; simpl; [done|].
  destruct (Z.eqb_spec (time x) t) as [Heq|Hne].
  - intros [= ->]. split; [done|]. by left.
  - intros H. destruct (IH H) as [? ?]. split; [done|]. by right.
Qed.

Lemma find_None t l : Buffer.find t l = None <-> t ∉ time <$> l.
Proof.
  induction l as [|x l IH]; simpl.
  - split; [intros _; apply not_elem_of_nil|done].
  - destruct (Z.eqb_spec (time x) t) as [Heq|Hne].
    + split; [done|]. intros H. exfalso. apply H. subst. by left.
    + rewrite IH. rewrite not_elem_of_cons. naive_solver.
Qed.

Lemma find_upsert t p l :
  Buffer.find t (Buffer.upsert p l)
  = if time p =? t then Some p else Buffer.find t l.
Proof.
  induction l as [|x l IH]; simpl; [done|].
  destruct (Z.ltb_spec (time p) (time x)); simpl; [done|].
  destruct (Z.eqb_spec (time p) (time x)) as [Heq|Hne]; simpl.
  - destruct (Z.eqb_spec (time p) t), (Z.eqb_spec (time x) t); try done; lia.
  - rewrite IH.
    destruct (Z.eqb_spec (time p) t), (Z.eqb_spec (time x) t); try done; lia.
Qed.

Lemma upsert_times p l x :
  x ∈ time <$> Buffer.upsert p l <-> x = time p \/ x ∈ time <$> l.
Proof.
  induction l as [|y l IH]; simpl.
  - rewrite list_elem_of_singleton. rewrite elem_of_nil. naive_solver.
  - destruct (Z.ltb_spec (time p) (time y)); simpl.
    + rewrite !elem_of_cons. naive_solver.
    + destruct (Z.eqb_spec (time p) (time y)) as [Heq|Hne]; simpl.
      * rewrite !elem_of_cons. naive_solver congruence.
      * rewrite !elem_of_cons, IH. naive_solver.
Qed.

Lemma upsert_ordered p l : Buffer.ordered l -> Buffer.ordered (Buffer.upsert p l).
Proof.
  unfold Buffer.ordered. induction l as [|x l IH]; simpl; intros Hs.
  - repeat constructor.
  - apply StronglySorted_cons in Hs as [Hall Hs].
    destruct (Z.ltb_spec (time p) (time x)); simpl.
    + apply StronglySorted_cons. split.
      * constructor; [done|]. eapply Forall_impl; [exact Hall|].
        simpl. intros; lia.
      * by apply StronglySorted_cons.
    + destruct (Z.eqb_spec (time p) (time x)) as [Heq|Hne]; simpl.
      * apply StronglySorted_cons. split; [|done]. by rewrite Heq.
      * apply StronglySorted_cons. split; [|by apply IH].
        rewrite Forall_forall. intros y Hy.
        apply upsert_times in Hy as [->|Hy]; [lia|].
        rewrite Forall_forall in Hall. by apply Hall.
Qed.




Lemma find_foldl_upsert t ps l :
  NoDup (time <$> ps) ->
  Buffer.find t (foldl (fun acc p => Buffer.upsert p acc) l ps)
  = match Buffer.find t ps with
    | Some p => Some p
    | None => Buffer.find t l
    end.
Proof.
  revert l. induction ps as [|p ps IH]; intros l Hnd; simpl; [done|].
  apply NoDup_cons in Hnd as [Hp Hnd].
  rewrite IH by done. rewrite find_upsert.
  destruct (Z.eqb_spec (time p) t) as [<-|Hne]; [|done].
  by rewrite (proj2 (find_None (time p) ps) Hp).
Qed.

Lemma StronglySorted_le_NoDup_lt (l : list Z) :
  StronglySorted Z.le l -> NoDup l -> StronglySorted Z.lt l.
Proof.
  induction l as [|x l IH]; intros Hs Hnd; [constructor|].
  apply StronglySorted_cons in Hs as [Hall Hs].
  apply NoDup_cons in Hnd as [Hx Hnd].
  apply StronglySorted_cons. split; [|by apply IH].
  rewrite Forall_forall in *. intros y Hy.
  specialize (Hall y Hy). assert (x <> y) by (intros ->; done). lia.
Qed.

Lemma StronglySorted_lt_le (l : list Z) :
  StronglySorted Z.lt l -> StronglySorted Z.le l.
Proof.
  induction 1 as [|x l Hs IH Hall]; constructor; [done|].
  eapply Forall_impl; [exact Hall|]. simpl. intros; lia.
Qed.

Lemma StronglySorted_lt_NoDup (l : list Z) :
  StronglySorted Z.lt l -> NoDup l.
Proof.
  induction 1 as [|x l Hs IH Hall]; constructor; [|done].
  rewrite Forall_forall in Hall. intros Hin. specialize (Hall _ Hin). lia.
Qed.

End SeriesFacts.

Section DeDupeFacts.

Lemma find_deDupe q added t l :
  Buffer.find t (deDupe q added l)
  = if decide (t ∈ added) then None
    else if contains q t then Buffer.find t l else None.
Proof.
  revert added. induction l as [|p l IH]; intros added; simpl.
  - destruct (decide _); [done|]. by destruct (contains q t).
  - destruct (decide (time p ∈ added)) as [Hin|Hnin].
    + rewrite IH. destruct (decide (t ∈ added)) as [|Ht]; [done|].
      destruct (Z.eqb_spec (time p) t) as [Heq|Hne]; [|done].
      subst t. done.
    + assert (forall P Q : option Point,
                time p <> t ->
                (if decide (t ∈ ({[time p]} ∪ added : gset Z)) then P else Q)
                = (if decide (t ∈ added) then P else Q)) as Hsame.
      { intros P Q Hne. destruct (decide (t ∈ added));
          destruct (decide (t ∈ ({[time p]} ∪ added : gset Z))); try done;
          set_solver. }
      destruct ((range_start q <=? time p) && (time p <=? range_end q)) eqn:Hq;
        simpl.
      * destruct (Z.eqb_spec (time p) t) as [Heq|Hne].
        -- subst t. rewrite decide_False by done.
           unfold contains. by rewrite Hq.
        -- rewrite IH. by apply Hsame.
      * rewrite IH.
        destruct (Z.eqb_spec (time p) t) as [Heq|Hne].
        -- subst t. rewrite decide_True by set_solver.
           rewrite decide_False by done. unfold contains. by rewrite Hq.
        -- by apply Hsame.
Qed.

Lemma deDupe_sublist q added l : deDupe q added l `sublist_of` l.
Proof.
  revert added. induction l as [|p l IH]; intros added; simpl; [done|].
  destruct (decide _); [by apply sublist_cons|].
  destruct (_ && _); [by apply sublist_skip|by apply sublist_cons].
Qed.

Lemma deDupe_fresh q added l x :
  x ∈ time <$> deDupe q added l -> x ∉ added.
Proof.
  revert added. induction l as [|p l IH]; intros added; simpl.
  - by intros ?%elem_of_nil.
  - destruct (decide _); [by apply IH|].
    destruct (_ && _).
    + rewrite fmap_cons, elem_of_cons. intros [->|Hx]; [done|].
      apply IH in Hx. set_solver.
    + intros Hx. apply IH in Hx. set_solver.
Qed.

Lemma deDupe_NoDup q added l : NoDup (time <$> deDupe q added l).
Proof.
  revert added. induction l as [|p l IH]; intros added; simpl.
  - constructor.
  - destruct (decide _); [by apply IH|].
    destruct (_ && _); [|by apply IH].
    rewrite fmap_cons. apply NoDup_cons. split; [|by apply IH].
    intros Hx. apply deDupe_fresh in Hx. set_solver.
Qed.

Lemma deDupe_inRange q added l :
  Forall (fun p => Buffer.inRange q p = true) (deDupe q added l).
Proof.
  revert added. induction l as [|p l IH]; intros added; simpl.
  - constructor.
  - destruct (decide _); [by apply IH|].
    destruct (_ && _) eqn:Hq; [|by apply IH].
    constructor; [done|by apply IH].
Qed.

Lemma deDupe_ordered q l :
  StronglySorted Z.le (time <$> l) -> Buffer.ordered (deDupe q ∅ l).
Proof.
  intros Hs. apply StronglySorted_le_NoDup_lt; [|apply deDupe_NoDup].
  eapply StronglySorted_sublist; [|exact Hs].
  apply fmap_sublist, deDupe_sublist.
Qed.

End DeDupeFacts.

Section ClassifyFacts.



Lemma intersection_external r q :
  intersection r q = intersect_other_external ->
  range_start q <= range_start r /\ range_end r <= range_end q.
Proof.
  unfold intersection, containsRange.
  repeat (case_match; try done); intros _; lia.
Qed.


End ClassifyFacts.


Section FetchFacts.

Context {A : Type} {db : DbAdapter A} {pq : PointQuality}
  {rt : Buffer.Retention}.

Lemma pointsInRange_fetch id q (st : State A) :
  memoCovers st id q = false ->
  adapterConnected (_adapter st) = true ->
  intersection (Buffer.range (super st) id) q <> intersect_other_internal ->
  pointsInRange id q st
  = let deDuped := deDupe q ∅ (assemble st id q) in
    (deDuped,
     super_addPoints id deDuped
       (with_last_request (memoAfter id q deDuped)
          (traced (CallSelectRange id <$> gapQueries (Buffer.range (super st) id) q)
             st))).
Proof.
  unfold memoCovers, pointsInRange. intros -> Hc Hi.
  rewrite (checkConnected_connected st Hc). cbn [negb].
  unfold assemble, gapQueries, fetchFiltered.
  destruct (intersection (Buffer.range (super st) id) q) eqn:Hint;
    [| done | | |]; cbn -[deDupe Buffer.range Buffer.addPoints].
  - rewrite app_nil_r.
    by erewrite (pointsWithOpcFilter_ext _ st).
  - erewrite (pointsWithOpcFilter_ext _ st) by done.
    erewrite (pointsWithOpcFilter_ext (adapter_call _ _ (adapter_call _ _ _)) st)
      by done.
    done.
  - by erewrite (pointsWithOpcFilter_ext _ st).
  - rewrite app_nil_r.
    by erewrite (pointsWithOpcFilter_ext _ st).
Qed.

End FetchFacts.


Section AssembleFacts.

Context {A : Type} {db : DbAdapter A} {pq : PointQuality}
  {rt : Buffer.Retention}.

Lemma pointWithOpcFilter_time (st : State A) p :
  isValid (pointWithOpcFilter st p) = true ->
  time (pointWithOpcFilter st p) = time p.
Proof.
  unfold pointWithOpcFilter, opcFilters.
  destruct (_opcFilter st); simpl; try done;
    destruct (decide _); simpl; done.
Qed.

Lemma filtered_times_sublist (st : State A) raw :
  time <$> pointsWithOpcFilter st raw `sublist_of` time <$> raw.
Proof.
  induction raw as [|p raw IH]; simpl; [done|].
  destruct (isValid (pointWithOpcFilter st p)) eqn:Hv.
  - rewrite fmap_cons, (pointWithOpcFilter_time st p Hv). by apply sublist_skip.
  - by apply sublist_cons.
Qed.

Lemma fetchFiltered_sorted (st : State A) id w :
  answersInOrder (_adapter st) id ->
  StronglySorted Z.le (time <$> fetchFiltered st id w).
Proof.
  intros Ha. eapply StronglySorted_sublist; [apply filtered_times_sublist|].
  apply Ha.
Qed.

Lemma fetchFiltered_times (st : State A) id w t :
  answersInOrder (_adapter st) id ->
  t ∈ time <$> fetchFiltered st id w -> contains w t = true.
Proof.
  intros Ha Ht.
  eapply elem_of_sublist in Ht; [|apply filtered_times_sublist].
  apply list_elem_of_fmap in Ht as (p & -> & Hp).
  destruct (Ha w) as [_ Hall]. rewrite Forall_forall in Hall.
  by apply Hall.
Qed.

Lemma buffered_sorted (st : State A) id w :
  Buffer.ordered (Buffer.pointsOf (super st) id) ->
  StronglySorted Z.le (time <$> super_pointsInRange st id w).
Proof.
  intros Ho. apply StronglySorted_lt_le. by apply ordered_filter.
Qed.

Lemma buffered_times (st : State A) id w t :
  t ∈ time <$> super_pointsInRange st id w -> contains w t = true.
Proof.
  intros (p & -> & Hp)%list_elem_of_fmap.
  by apply list_elem_of_filter in Hp as [Hin _].
Qed.

Lemma last_cons_default (x y : Point) rest :
  List.last (y :: rest) x = List.last rest y.
Proof.
  revert x y. induction rest as [|z rest IH]; intros x y; [done|].
  change (List.last (y :: z :: rest) x) with (List.last (z :: rest) x).
  by rewrite !IH.
Qed.

Lemma last_latest x rest p :
  Buffer.ordered (x :: rest) -> p ∈ x :: rest ->
  time p <= time (List.last rest x).
Proof.
  unfold Buffer.ordered. revert x p.
  induction rest as [|y rest IH]; intros x p Ho Hp.
  - apply list_elem_of_singleton in Hp as ->. simpl. lia.
  - rewrite last_cons_default.
    rewrite fmap_cons in Ho. apply StronglySorted_cons in Ho as [Hall Ho].
    apply elem_of_cons in Hp as [->|Hp]; [|by apply IH].
    rewrite fmap_cons in Hall. apply Forall_cons in Hall as [Hxy _].
    assert (time y <= time (List.last rest y)) by (apply IH; [done|by left]).
    lia.
Qed.


Lemma contains_spec w t :
  contains w t = true <-> range_start w <= t /\ t <= range_end w.
Proof. unfold contains. rewrite andb_true_iff, !Z.leb_le. done. Qed.

Lemma range_wf (b : Buffer.t) id :
  Buffer.ordered (Buffer.pointsOf b id) ->
  range_start (Buffer.range b id) <= range_end (Buffer.range b id).
Proof.
  unfold Buffer.range. destruct (Buffer.pointsOf b id) as [|x rest] eqn:Hl.
  - done.
  - intros Ho. simpl. apply last_latest; [done|by left].
Qed.

Lemma sorted_app_le (l1 l2 : list Z) (m : Z) :
  StronglySorted Z.le l1 -> StronglySorted Z.le l2 ->
  (forall x, x ∈ l1 -> x <= m) -> (forall x, x ∈ l2 -> m <= x) ->
  StronglySorted Z.le (l1 ++ l2).
Proof.
  intros H1 H2 Hl Hr. apply StronglySorted_app_2; [|done..].
  intros x1 x2 Hx1 Hx2. specialize (Hl _ Hx1). specialize (Hr _ Hx2). lia.
Qed.

Lemma assemble_sorted (st : State A) id q :
  Buffer.ordered (Buffer.pointsOf (super st) id) ->
  answersInOrder (_adapter st) id ->
  StronglySorted Z.le (time <$> assemble st id q).
Proof.
  intros Ho Ha. unfold assemble.
  pose proof (range_wf (super st) id Ho) as Hwf.
  destruct (intersection (Buffer.range (super st) id) q) eqn:Hi;
    try (by apply fetchFiltered_sorted).
  - rewrite !fmap_app.
    apply (sorted_app_le _ _ (range_start (Buffer.range (super st) id))).
    + by apply fetchFiltered_sorted.
    + apply (sorted_app_le _ _ (range_end (Buffer.range (super st) id))).
      * by apply buffered_sorted.
      * by apply fetchFiltered_sorted.
      * intros x Hx%buffered_times%contains_spec. lia.
      * intros x Hx. apply fetchFiltered_times in Hx; [|done].
        apply contains_spec in Hx. simpl in Hx. lia.
    + intros x Hx. apply fetchFiltered_times in Hx; [|done].
      apply contains_spec in Hx. simpl in Hx. lia.
    + intros x [Hx|Hx]%elem_of_app.
      * apply buffered_times, contains_spec in Hx. lia.
      * apply fetchFiltered_times in Hx; [|done].
        apply contains_spec in Hx. simpl in Hx. lia.
  - rewrite fmap_app.
    apply (sorted_app_le _ _ (range_start (Buffer.range (super st) id))).
    + by apply fetchFiltered_sorted.
    + by apply buffered_sorted.
    + intros x Hx. apply fetchFiltered_times in Hx; [|done].
      apply contains_spec in Hx. simpl in Hx. lia.
    + intros x Hx%buffered_times%contains_spec. simpl in Hx. lia.
  - rewrite fmap_app.
    apply (sorted_app_le _ _ (range_end (Buffer.range (super st) id))).
    + by apply buffered_sorted.
    + by apply fetchFiltered_sorted.
    + intros x Hx%buffered_times%contains_spec. simpl in Hx. lia.
    + intros x Hx. apply fetchFiltered_times in Hx; [|done].
      apply contains_spec in Hx. simpl in Hx. lia.
Qed.


End AssembleFacts.


Section Idempotence.

Context {A : Type} {db : DbAdapter A} {pq : PointQuality}
  {rt : Buffer.Retention}.

Lemma pointsOf_addPoint (b : Buffer.t) id p :
  Buffer.pointsOf (Buffer.addPoint b id p) id
  = Buffer.evict (Buffer.upsert p (Buffer.pointsOf b id)).
Proof.
  unfold Buffer.addPoint, Buffer.pointsOf. simpl. by rewrite lookup_insert_eq.
Qed.




Lemma find_ordered_elem l p :
  Buffer.ordered l -> p ∈ l -> Buffer.find (time p) l = Some p.
Proof.
  unfold Buffer.ordered. induction l as [|x l IH]; simpl; intros Ho Hp.
  - by apply elem_of_nil in Hp.
  - apply StronglySorted_inv in Ho as [Ho Hx].
    apply elem_of_cons in Hp as [->|Hp]; [by rewrite Z.eqb_refl|].
    rewrite Forall_forall in Hx.
    assert (time x < time p) as Hlt by (apply Hx; by apply list_elem_of_fmap_2).
    destruct (Z.eqb_spec (time x) (time p)); [lia|]. by apply IH.
Qed.

Lemma find_elem l p :
  p ∈ l -> exists p', Buffer.find (time p) l = Some p'.
Proof.
  intros Hp. destruct (Buffer.find (time p) l) as [p'|] eqn:Hf; [by eexists|].
  apply find_None in Hf. exfalso. apply Hf. by apply list_elem_of_fmap_2.
Qed.

Lemma traced_frame (cs : list AdapterCall) (st : State A) :
  cacheState (traced cs st) = cacheState st
  /\ _adapter (traced cs st) = _adapter st
  /\ calls (traced cs st) = calls st ++ cs.
Proof.
  revert st. induction cs as [|c cs IH]; intros st; simpl.
  - by rewrite app_nil_r.
  - destruct (IH (adapter_call c (_adapter st) st)) as (H1 & H2 & H3).
    unfold traced in *. rewrite H1, H2, H3. split_and!; [done..|].
    simpl. by rewrite <- app_assoc.
Qed.


Lemma pointsInRange_distinct_inRange id q (st : State A) :
  Buffer.ordered (Buffer.pointsOf (super st) id) ->
  NoDup (time <$> (pointsInRange id q st).1)
  /\ Forall (fun p => Buffer.inRange q p = true) (pointsInRange id q st).1.
Proof.
  intros Ho.
  assert (forall st' : State A, super st' = super st ->
            NoDup (time <$> super_pointsInRange st' id q)
            /\ Forall (fun p => Buffer.inRange q p = true)
                 (super_pointsInRange st' id q)) as Hbuf.
  { intros st' Hs. unfold super_pointsInRange, Buffer.pointsInRange.
    rewrite Hs. split.
    - by apply StronglySorted_lt_NoDup, ordered_filter.
    - apply Forall_forall. by intros p [? _]%list_elem_of_filter. }
  unfold pointsInRange.
  destruct (_ && _); [by apply Hbuf|].
  pose proof (checkConnected_super st) as Hs.
  destruct (checkConnected st) as [c st1]. cbn [fst snd] in Hs.
  destruct c; cbn [negb]; [|by apply Hbuf].
  destruct (intersection (Buffer.range (super st1) id) q);
    try (by apply Hbuf);
    repeat (match goal with
            | |- context [let '(_, _) := ?x in _] => destruct x
            end);
    cbn [fst snd]; split; first [apply deDupe_NoDup | apply deDupe_inRange].
Qed.




End Idempotence.

Section BufferInvariant.

Context {A : Type} {db : DbAdapter A} {pq : PointQuality}
  {rt : Buffer.Retention}.

Lemma ordered_pointsOf (b : Buffer.t) id :
  Buffer.wf b -> Buffer.ordered (Buffer.pointsOf b id).
Proof.
  intros Hwf. unfold Buffer.pointsOf.
  destruct (Buffer.series b !! id) as [l|] eqn:Hl; simpl.
  - by eapply Hwf.
  - constructor.
Qed.

Lemma wf_addPoint (b : Buffer.t) id p :
  Buffer.wf b -> Buffer.wf (Buffer.addPoint b id p).
Proof.
  intros Hwf id' l. unfold Buffer.addPoint. simpl.
  destruct (decide (id = id')) as [->|Hne].
  - rewrite lookup_insert_eq. intros [= <-]. unfold Buffer.ordered.
    eapply StronglySorted_sublist.
    + apply fmap_sublist, Buffer.evict_sublist.
    + by apply upsert_ordered, ordered_pointsOf.
  - rewrite lookup_insert_ne by done. apply Hwf.
Qed.

Lemma wf_addPoints (b : Buffer.t) id ps :
  Buffer.wf b -> Buffer.wf (Buffer.addPoints b id ps).
Proof.
  revert b. induction ps as [|p ps IH]; intros b Hwf; [done|].
  apply IH. by apply wf_addPoint.
Qed.

Lemma wf_reset (b : Buffer.t) : Buffer.wf (Buffer.reset b).
Proof. intros id l. unfold Buffer.reset. simpl. by rewrite lookup_empty. Qed.

Lemma wf_reset_id (b : Buffer.t) id :
  Buffer.wf b -> Buffer.wf (Buffer.reset_id b id).
Proof.
  intros Hwf id' l. unfold Buffer.reset_id. simpl.
  intros Hl. apply lookup_delete_Some in Hl as [_ Hl]. by eapply Hwf.
Qed.

Lemma wf_empty : Buffer.wf Buffer.empty.
Proof. intros id l. unfold Buffer.empty. simpl. by rewrite lookup_empty. Qed.

Lemma checkConnected_ordered (st : State A) :
  bufferOrdered st -> bufferOrdered (checkConnected st).2.
Proof. unfold bufferOrdered. by rewrite checkConnected_super. Qed.

Ltac wf_branches :=
  repeat match goal with
    | |- context [checkConnected ?s] =>
        let H := fresh "Hconn" in
        pose proof (checkConnected_super s) as H;
        destruct (checkConnected s) as [? ?]; cbn [fst snd] in H
    | |- context [match ?x with _ => _ end] => destruct x eqn:?
    | |- context [if ?x then _ else _] => destruct x eqn:?
    end;
  unfold bufferOrdered in *; cbn -[Buffer.addPoints Buffer.addPoint];
  try done;
  repeat first
    [ apply wf_addPoints | apply wf_addPoint | apply wf_reset
    | apply wf_reset_id ];
  repeat match goal with
    | H : super ?s = _ |- context [super ?s] => rewrite H
    end;
  try done.

Lemma pointsInRange_ordered id q (st : State A) :
  bufferOrdered st -> bufferOrdered (pointsInRange id q st).2.
Proof.
  intros Hwf. unfold pointsInRange, adapter_selectRange, super_addPoints.
  wf_branches.
Qed.

Lemma point_ordered id t (st : State A) :
  bufferOrdered st -> bufferOrdered (point id t st).2.
Proof.
  intros Hwf. unfold point, adapter_selectRange, super_addPoints.
  wf_branches.
Qed.

Lemma search_loop_ordered fuel id step pts r limit (st : State A) :
  bufferOrdered st ->
  bufferOrdered (search_loop fuel id step pts r limit st).2.
Proof.
  revert pts r limit st.
  induction fuel as [|fuel IH]; intros pts r limit st Hwf; simpl; [done|].
  case_match; [|done].
  pose proof (pointsInRange_ordered id r st Hwf) as Hp.
  destruct (pointsInRange id r st) as [pts' st']. by apply IH.
Qed.

Lemma searchPreviousIteratively_ordered id t (st : State A) :
  bufferOrdered st -> bufferOrdered (searchPreviousIteratively id t st).2.
Proof.
  intros Hwf. unfold searchPreviousIteratively.
  pose proof (checkConnected_ordered st Hwf) as Hc.
  destruct (checkConnected st) as [c st1]. cbn [fst snd] in Hc.
  destruct c; cbn [negb]; [|done].
  match goal with |- context [search_loop ?f ?i ?s ?p ?r ?l ?x] =>
    pose proof (search_loop_ordered f i s p r l x Hc) as Hs;
    destruct (search_loop f i s p r l x) as [pts st2] end.
  by destruct pts.
Qed.

Lemma searchNextIteratively_ordered id t (st : State A) :
  bufferOrdered st -> bufferOrdered (searchNextIteratively id t st).2.
Proof.
  intros Hwf. unfold searchNextIteratively.
  pose proof (checkConnected_ordered st Hwf) as Hc.
  destruct (checkConnected st) as [c st1]. cbn [fst snd] in Hc.
  destruct c; cbn [negb]; [|done].
  match goal with |- context [search_loop ?f ?i ?s ?p ?r ?l ?x] =>
    pose proof (search_loop_ordered f i s p r l x Hc) as Hs;
    destruct (search_loop f i s p r l x) as [pts st2] end.
  by destruct pts.
Qed.

Lemma pointBefore_ordered id t (st : State A) :
  bufferOrdered st -> bufferOrdered (pointBefore id t st).2.
Proof.
  intros Hwf. unfold pointBefore.
  destruct (isValid (super_pointBefore st id t)); [done|].
  destruct (request_contains _ _ _); [done|].
  pose proof (checkConnected_ordered st Hwf) as Hc.
  destruct (checkConnected st) as [c st1]. cbn [fst snd] in Hc.
  destruct c; cbn [negb]; [|done].
  pose proof (searchPreviousIteratively_ordered id t st1 Hc) as Hs.
  destruct (searchPreviousIteratively id t st1) as [p1 st2]. cbn [snd] in Hs.
  repeat (case_match; simplify_eq; cbn [fst snd] in *); done.
Qed.

Lemma pointAfter_ordered id t (st : State A) :
  bufferOrdered st -> bufferOrdered (pointAfter id t st).2.
Proof.
  intros Hwf. unfold pointAfter.
  destruct (isValid (super_pointAfter st id t)); [done|].
  destruct (request_contains _ _ _); [done|].
  pose proof (checkConnected_ordered st Hwf) as Hc.
  destruct (checkConnected st) as [c st1]. cbn [fst snd] in Hc.
  destruct c; cbn [negb]; [|done].
  pose proof (searchNextIteratively_ordered id t st1 Hc) as Hs.
  destruct (searchNextIteratively id t st1) as [p1 st2]. cbn [snd] in Hs.
  repeat (case_match; simplify_eq; cbn [fst snd] in *); done.
Qed.

Lemma identifiersAndUnits_ordered now (st : State A) :
  bufferOrdered st -> bufferOrdered (identifiersAndUnits now st).2.
Proof. intros Hwf. unfold identifiersAndUnits. wf_branches. Qed.

Lemma register_ordered name u now (st : State A) :
  bufferOrdered st ->
  bufferOrdered (registerAndGetIdentifierForSeriesWithUnits name u now st).2.
Proof.
  intros Hwf. unfold registerAndGetIdentifierForSeriesWithUnits.
  destruct (String.length name =? 0)%nat; [done|].
  pose proof (checkConnected_ordered st Hwf) as Hc.
  destruct (checkConnected st) as [c st1]. cbn [fst snd] in Hc.
  destruct c; cbn [negb]; [|done].
  pose proof (identifiersAndUnits_ordered now st1 Hc) as Hi.
  destruct (identifiersAndUnits now st1) as [l st2]. cbn [snd] in Hi.
  unfold super_register, Buffer.registerAndGetIdentifierForSeriesWithUnits.
  repeat (case_match; simplify_eq; cbn [fst snd] in *); exact Hi.
Qed.

Lemma reset_id_ordered id (st : State A) :
  bufferOrdered st -> bufferOrdered (reset_id id st).
Proof. intros Hwf. unfold reset_id. wf_branches. Qed.

Lemma run_op_ordered (o : Op) (st : State A) :
  bufferOrdered st -> bufferOrdered (run_op o st).
Proof.
  intros Hwf. destruct o; simpl;
    try (by apply pointsInRange_ordered);
    try (by apply point_ordered);
    try (by apply pointBefore_ordered);
    try (by apply pointAfter_ordered);
    try (by apply register_ordered);
    try (by apply identifiersAndUnits_ordered);
    try (by apply reset_id_ordered).
  - unfold setReadonly. wf_branches.
  - unfold beginBulkOperation. wf_branches.
  - unfold endBulkOperation. wf_branches.
  - unfold addPoint, super_addPoint. wf_branches.
  - unfold addPoints, super_addPoints. wf_branches.
  - unfold reset. wf_branches.
  - unfold invalidate.
    destruct (negb (readonly st)); [|done].
    pose proof (checkConnected_ordered st Hwf) as Hc.
    destruct (checkConnected st) as [c st1]. cbn [fst snd] in Hc.
    destruct c; [|done]. by apply reset_id_ordered.
  - unfold setOpcFilterType.
    destruct (decide _); [|done].
    destruct (opcFilters ty); apply wf_reset.
  - apply wf_reset.
  - apply wf_reset.
  - unfold removeOpcFilterCode. destruct (decide _); [apply wf_reset|done].
  - done.
Qed.

Lemma run_ordered (ops : list Op) (st : State A) :
  bufferOrdered st -> bufferOrdered (run ops st).
Proof.
  revert st. induction ops as [|o ops IH]; intros st Hwf; [done|].
  apply IH, run_op_ordered, Hwf.
Qed.

Lemma new_ordered (a : A) t0 : bufferOrdered (DbPointRecord_new a t0).
Proof. apply wf_reset. Qed.


End BufferInvariant.

(** ** The registry listing, as a whole *)

Section RegistryClaims.

Context {A : Type} {db : DbAdapter A} {pq : PointQuality}
  {rt : Buffer.Retention}.

(** C10, as amended.  A call to [identifiersAndUnits] made less than five
    seconds after the previous call, with a non-empty cached listing,
    returns the cached listing and only records the time of the call; no
    call reaches the adapter.  Any other call checks the connection and,
    when the store is reachable, replaces the cache by the adapter's
    [idUnitsList]; when it is not, it returns the cache as it is.  As the
    time of the previous call is updated by every call, hits included, a
    burst of calls each less than five seconds after the one before keeps
    returning the same cached listing, whatever the age of that listing. *)
Theorem identifiersAndUnits_memo now times (st : State A) :
  (now - _lastIdRequest st < 5 ->
   _identifiersAndUnitsCache st <> ∅ ->
   identifiersAndUnits now st
   = (_identifiersAndUnitsCache st, with_lastIdRequest now st))
  /\ (5 <= now - _lastIdRequest st \/ _identifiersAndUnitsCache st = ∅ ->
      identifiersAndUnits now st
      = let '(connected, st1) := checkConnected (with_lastIdRequest now st) in
        if connected then
          (idUnitsList (_adapter st1),
           with_idCache (idUnitsList (_adapter st1))
             (adapter_call CallIdUnitsList (_adapter st1) st1))
        else (_identifiersAndUnitsCache st1, st1))
  /\ (_identifiersAndUnitsCache st <> ∅ ->
      closelySpaced (_lastIdRequest st) times ->
      Forall (fun l => l = _identifiersAndUnitsCache st)
        (pollRegistry times st).1
      /\ calls (pollRegistry times st).2 = calls st
      /\ _adapter (pollRegistry times st).2 = _adapter st).
Proof.
  split_and!.
  - apply identifiersAndUnits_hit.
  - apply identifiersAndUnits_miss.
  - apply pollRegistry_hits.
Qed.

End RegistryClaims.

(** ** Bound lookups on an adapter that prefers iterative search *)

Section BoundClaims.

Context {A : Type} {db : DbAdapter A} {pq : PointQuality}
  {rt : Buffer.Retention}.

Lemma pointWithOpcFilter_ext (st st' : State A) p :
  settings st' = settings st ->
  pointWithOpcFilter st' p = pointWithOpcFilter st p.
Proof.
  unfold settings. intros H.
  assert (_opcFilter st' = _opcFilter st) as Hf by congruence.
  assert (_opcFilterCodes st' = _opcFilterCodes st) as Hc by congruence.
  unfold pointWithOpcFilter. by rewrite Hf, Hc.
Qed.

Lemma run_search_settings (a : A) t0 (ops : list Op) :
  iterativeSearchMaxIterations (run ops (DbPointRecord_new a t0)) = 8
  /\ iterativeSearchStride (run ops (DbPointRecord_new a t0)) = 3 * 60 * 60.
Proof.
  assert (forall (o : Op) (s : State A),
            iterativeSearchMaxIterations (run_op o s) = iterativeSearchMaxIterations s
            /\ iterativeSearchStride (run_op o s) = iterativeSearchStride s) as Hstep.
  { intros o s. destruct (isSetter o) eqn:Hs.
    - destruct o; try discriminate; cbn [run_op].
      + unfold setReadonly. by destruct (implementationReadonly options).
      + unfold setOpcFilterType.
        destruct (decide _); [destruct (opcFilters ty)|]; done.
      + done.
      + done.
      + unfold removeOpcFilterCode. by destruct (decide _).
    - pose proof (run_op_settings o s Hs) as H. unfold settings in H.
      split; congruence. }
  generalize (DbPointRecord_new a t0) (eq_refl : iterativeSearchMaxIterations (DbPointRecord_new a t0) = 8)
    (eq_refl : iterativeSearchStride (DbPointRecord_new a t0) = 3 * 60 * 60).
  induction ops as [|o ops IH]; intros s H1 H2; [done|].
  change (run (o :: ops) s) with (run ops (run_op o s)).
  destruct (Hstep o s) as [E1 E2]. apply IH; congruence.
Qed.








End BoundClaims.

(** * Further properties *)

Section ConnectionExact.

Context {A : Type} {db : DbAdapter A}.

Lemma checkConnected_loop_exact fuel iTry (st : State A) :
  0 <= iTry -> _DB_MAX_CONNECT_TRY - iTry <= Z.of_nat fuel ->
  exists k : nat,
    Z.of_nat k <= Z.max 0 (_DB_MAX_CONNECT_TRY - 1 - iTry)
    /\ calls (checkConnected_loop fuel iTry st)
       = calls st ++ replicate k CallDoConnect
    /\ _adapter (checkConnected_loop fuel iTry st)
       = Nat.iter k doConnect (_adapter st)
    /\ (forall j : nat, (j < k)%nat ->
          adapterConnected (Nat.iter j doConnect (_adapter st)) = false)
    /\ (adapterConnected (Nat.iter k doConnect (_adapter st)) = false ->
        Z.of_nat k = Z.max 0 (_DB_MAX_CONNECT_TRY - 1 - iTry)).
Proof.
  revert iTry st. induction fuel as [|fuel IH]; intros iTry st Hi Hf; simpl;
    unfold _DB_MAX_CONNECT_TRY in *.
  - exists 0%nat. split_and!; [lia | by rewrite app_nil_r | done | lia | lia].
  - destruct (adapterConnected (_adapter st)) eqn:Hc; simpl.
    + exists 0%nat. simpl.
      split_and!; [lia | by rewrite app_nil_r | done | lia | congruence].
    + destruct (Z.ltb_spec (iTry + 1) 5) as [Hlt|Hge].
      * destruct (IH (iTry + 1) (dbConnect st)) as (k & Hk & Hcalls & Ha & Hj & Hl);
          [lia | lia |].
        exists (S k). rewrite Hcalls, Ha. split_and!.
        -- lia.
        -- simpl. by rewrite <- app_assoc.
        -- by rewrite Nat.iter_succ_r.
        -- intros [|j] Hjk; [done|]. rewrite Nat.iter_succ_r. apply Hj. lia.
        -- rewrite Nat.iter_succ_r. intros Hn. specialize (Hl Hn).
           simpl in Hl. lia.
      * exists 0%nat. simpl.
        split_and!; [lia | by rewrite app_nil_r | done | lia | lia].
Qed.

(** X1.  [checkConnected] calls [doConnect] only while the adapter reports no
    connection, at most four times (one less than [_DB_MAX_CONNECT_TRY]),
    stops at the first attempt after which the adapter is connected, and
    returns the adapter's connection status; when it returns [false] all
    four attempts were made.  Nothing else of the record changes. *)
Theorem checkConnected_retries (st : State A) :
  exists k : nat,
    (k <= 4)%nat
    /\ calls (checkConnected st).2 = calls st ++ replicate k CallDoConnect
    /\ _adapter (checkConnected st).2 = Nat.iter k doConnect (_adapter st)
    /\ cacheState (checkConnected st).2 = cacheState st
    /\ (checkConnected st).1
       = adapterConnected (Nat.iter k doConnect (_adapter st))
    /\ (forall j : nat, (j < k)%nat ->
          adapterConnected (Nat.iter j doConnect (_adapter st)) = false)
    /\ ((checkConnected st).1 = false -> k = 4%nat).
Proof.
  destruct (checkConnected_loop_exact (Z.to_nat _DB_MAX_CONNECT_TRY) 0 st)
    as (k & Hk & Hcalls & Ha & Hj & Hl); [done | unfold _DB_MAX_CONNECT_TRY; lia |].
  unfold _DB_MAX_CONNECT_TRY in *.
  exists k. split_and!; try done.
  - lia.
  - apply checkConnected_cacheState.
  - unfold checkConnected, isConnected, _DB_MAX_CONNECT_TRY. cbn [fst snd].
    by rewrite Ha.
  - unfold checkConnected, isConnected, _DB_MAX_CONNECT_TRY. cbn [fst snd].
    rewrite Ha.
    intros Hn. specialize (Hl Hn). lia.
Qed.

End ConnectionExact.

Section TraceFacts.

Context {A : Type} {db : DbAdapter A} {pq : PointQuality}
  {rt : Buffer.Retention}.

Lemma sends_refl P (st : State A) : sends P st st.
Proof. exists []. by rewrite app_nil_r. Qed.

Lemma sends_trans P (st1 st2 st3 : State A) :
  sends P st1 st2 -> sends P st2 st3 -> sends P st1 st3.
Proof.
  intros (cs1 & H1 & Hp1) (cs2 & H2 & Hp2). exists (cs1 ++ cs2).
  rewrite H2, H1, <- app_assoc. split; [done|].
  rewrite forallb_app. by rewrite Hp1, Hp2.
Qed.

Lemma sends_frame P (st st1 st2 : State A) :
  sends P st st1 -> calls st2 = calls st1 -> sends P st st2.
Proof. intros (cs & H & Hp) Heq. exists cs. rewrite Heq. by split. Qed.

Lemma sends_call P (st st1 : State A) c a :
  sends P st st1 -> P c = true -> sends P st (adapter_call c a st1).
Proof.
  intros (cs & H & Hp) Hc. exists (cs ++ [c]). simpl.
  rewrite H, <- app_assoc. split; [done|].
  rewrite forallb_app, Hp. simpl. by rewrite Hc.
Qed.

Lemma checkConnected_sends P (st : State A) :
  P CallDoConnect = true -> sends P st (checkConnected st).2.
Proof.
  intros Hp. destruct (checkConnected_attempts st) as (k & _ & Hc & _).
  exists (replicate k CallDoConnect). split; [done|].
  clear Hc. induction k as [|k IH]; simpl; [done|]. by rewrite Hp.
Qed.

(** Peel the field updates and adapter calls off the final state. *)
Ltac peel :=
  lazymatch goal with
  | |- sends _ _ (adapter_call _ _ _) => apply sends_call; [peel | try done]
  | |- sends _ _ (with_super _ ?s) => apply (sends_frame _ _ s); [peel | done]
  | |- sends _ _ (with_last_request _ ?s) => apply (sends_frame _ _ s); [peel | done]
  | |- sends _ _ (with_idCache _ ?s) => apply (sends_frame _ _ s); [peel | done]
  | |- sends _ _ (with_lastIdRequest _ ?s) => apply (sends_frame _ _ s); [peel | done]
  | |- sends _ _ (with_readOnly _ ?s) => apply (sends_frame _ _ s); [peel | done]
  | |- sends _ _ (with_filterType _ ?s) => apply (sends_frame _ _ s); [peel | done]
  | |- sends _ _ (with_opcFilter _ ?s) => apply (sends_frame _ _ s); [peel | done]
  | |- sends _ _ (with_opcFilterCodes _ ?s) => apply (sends_frame _ _ s); [peel | done]
  | |- sends _ _ (super_addPoints _ _ ?s) => apply (sends_frame _ _ s); [peel | done]
  | |- sends _ _ (super_addPoint _ _ ?s) => apply (sends_frame _ _ s); [peel | done]
  | |- sends _ _ _ => first [assumption | apply sends_refl]
  end.

Ltac branches :=
  repeat match goal with
    | |- context [checkConnected ?s] =>
        let H := fresh "Hconn" in
        pose proof (checkConnected_sends _ s ltac:(eassumption)) as H;
        destruct (checkConnected s) as [? ?]; cbn [fst snd] in H
    | |- context [match ?x with _ => _ end] => destruct x eqn:?
    | |- context [if ?x then _ else _] => destruct x eqn:?
    end; cbn [fst snd].

Lemma pointsInRange_sends P id q (st : State A) :
  P CallDoConnect = true -> (forall r, P (CallSelectRange id r) = true) ->
  sends P st (pointsInRange id q st).2.
Proof.
  intros Hc Hs. unfold pointsInRange, adapter_selectRange.
  branches; simplify_eq; peel.
Qed.

Lemma point_sends P id t (st : State A) :
  P CallDoConnect = true -> (forall r, P (CallSelectRange id r) = true) ->
  sends P st (point id t st).2.
Proof.
  intros Hc Hs. unfold point, adapter_selectRange.
  branches; simplify_eq; peel.
Qed.

Lemma search_loop_sends P fuel id step pts r limit (st : State A) :
  P CallDoConnect = true -> (forall r, P (CallSelectRange id r) = true) ->
  sends P st (search_loop fuel id step pts r limit st).2.
Proof.
  intros Hc Hs. revert pts r limit st.
  induction fuel as [|fuel IH]; intros pts r limit st; simpl;
    [apply sends_refl|].
  case_match; [|apply sends_refl].
  pose proof (pointsInRange_sends P id r st Hc Hs) as Hp.
  destruct (pointsInRange id r st) as [pts' st']. cbn [snd] in Hp.
  eapply sends_trans; [exact Hp|apply IH].
Qed.

Lemma searchPreviousIteratively_sends P id t (st : State A) :
  P CallDoConnect = true -> (forall r, P (CallSelectRange id r) = true) ->
  sends P st (searchPreviousIteratively id t st).2.
Proof.
  intros Hc Hs. unfold searchPreviousIteratively.
  pose proof (checkConnected_sends P st Hc) as Hconn.
  destruct (checkConnected st) as [c st1]. cbn [fst snd] in Hconn.
  destruct c; cbn [negb]; [|done].
  match goal with |- context [search_loop ?f ?i ?s ?p ?r ?l ?x] =>
    pose proof (search_loop_sends P f i s p r l x Hc Hs) as Hl;
    destruct (search_loop f i s p r l x) as [pts st2] end.
  cbn [snd] in Hl. destruct pts; cbn [snd]; by eapply sends_trans.
Qed.

Lemma searchNextIteratively_sends P id t (st : State A) :
  P CallDoConnect = true -> (forall r, P (CallSelectRange id r) = true) ->
  sends P st (searchNextIteratively id t st).2.
Proof.
  intros Hc Hs. unfold searchNextIteratively.
  pose proof (checkConnected_sends P st Hc) as Hconn.
  destruct (checkConnected st) as [c st1]. cbn [fst snd] in Hconn.
  destruct c; cbn [negb]; [|done].
  match goal with |- context [search_loop ?f ?i ?s ?p ?r ?l ?x] =>
    pose proof (search_loop_sends P f i s p r l x Hc Hs) as Hl;
    destruct (search_loop f i s p r l x) as [pts st2] end.
  cbn [snd] in Hl. destruct pts; cbn [snd]; by eapply sends_trans.
Qed.

Lemma pointBefore_sends P id t (st : State A) :
  P CallDoConnect = true ->
  (searchIteratively (options (A:=A)) = true ->
   forall r, P (CallSelectRange id r) = true) ->
  (supportsSinglyBoundQuery (options (A:=A)) = true ->
   P (CallSelectPrevious id t) = true) ->
  sends P st (pointBefore id t st).2.
Proof.
  intros Hc Hs Hp. unfold pointBefore.
  destruct (isValid (super_pointBefore st id t)); [apply sends_refl|].
  destruct (request_contains _ _ _); [apply sends_refl|].
  pose proof (checkConnected_sends P st Hc) as Hconn.
  destruct (checkConnected st) as [c st1]. cbn [fst snd] in Hconn.
  destruct c; cbn [negb]; [|done].
  destruct (searchIteratively options) eqn:Hit.
  - pose proof (searchPreviousIteratively_sends P id t st1 Hc (Hs eq_refl)) as Hl.
    destruct (searchPreviousIteratively id t st1) as [p1 st2]. cbn [snd] in Hl.
    assert (sends P st st2) as H2 by (by eapply sends_trans).
    destruct (supportsSinglyBoundQuery options) eqn:Hsb;
      [specialize (Hp eq_refl)|];
      repeat (case_match; simplify_eq; cbn [fst snd] in * ); peel.
  - destruct (supportsSinglyBoundQuery options) eqn:Hsb;
      [specialize (Hp eq_refl)|];
      repeat (case_match; simplify_eq; cbn [fst snd] in * ); peel.
Qed.

Lemma pointAfter_sends P id t (st : State A) :
  P CallDoConnect = true ->
  (searchIteratively (options (A:=A)) = true ->
   forall r, P (CallSelectRange id r) = true) ->
  (supportsSinglyBoundQuery (options (A:=A)) = true ->
   P (CallSelectNext id t) = true) ->
  sends P st (pointAfter id t st).2.
Proof.
  intros Hc Hs Hp. unfold pointAfter.
  destruct (isValid (super_pointAfter st id t)); [apply sends_refl|].
  destruct (request_contains _ _ _); [apply sends_refl|].
  pose proof (checkConnected_sends P st Hc) as Hconn.
  destruct (checkConnected st) as [c st1]. cbn [fst snd] in Hconn.
  destruct c; cbn [negb]; [|done].
  destruct (searchIteratively options) eqn:Hit.
  - pose proof (searchNextIteratively_sends P id t st1 Hc (Hs eq_refl)) as Hl.
    destruct (searchNextIteratively id t st1) as [p1 st2]. cbn [snd] in Hl.
    assert (sends P st st2) as H2 by (by eapply sends_trans).
    destruct (supportsSinglyBoundQuery options) eqn:Hsb;
      [specialize (Hp eq_refl)|];
      repeat (case_match; simplify_eq; cbn [fst snd] in * ); peel.
  - destruct (supportsSinglyBoundQuery options) eqn:Hsb;
      [specialize (Hp eq_refl)|];
      repeat (case_match; simplify_eq; cbn [fst snd] in * ); peel.
Qed.

Lemma identifiersAndUnits_sends P now (st : State A) :
  P CallDoConnect = true -> P CallIdUnitsList = true ->
  sends P st (identifiersAndUnits now st).2.
Proof.
  intros Hc Hl. unfold identifiersAndUnits.
  destruct (_ && _); cbn [snd]; [peel|].
  pose proof (checkConnected_sends P (with_lastIdRequest now st) Hc) as Hconn.
  destruct (checkConnected _) as [c st1]. cbn [fst snd] in Hconn.
  assert (sends P st st1) as H1.
  { eapply sends_trans; [|exact Hconn]. peel. }
  destruct c; cbn [snd]; peel.
Qed.

Lemma register_sends P name u now (st : State A) :
  P CallDoConnect = true -> P CallIdUnitsList = true ->
  P (CallAssignUnitsToRecord name u) = true ->
  (readonly st = false -> P (CallInsertIdentifierAndUnits name u) = true) ->
  sends P st (registerAndGetIdentifierForSeriesWithUnits name u now st).2.
Proof.
  intros Hc Hl Ha Hi. unfold registerAndGetIdentifierForSeriesWithUnits.
  destruct (String.length name =? 0)%nat; [apply sends_refl|].
  pose proof (checkConnected_sends P st Hc) as Hconn.
  pose proof (checkConnected_settings st) as Hset1.
  destruct (checkConnected st) as [c st1]. cbn [fst snd] in Hconn, Hset1.
  destruct c; cbn [negb].
  2:{ unfold super_register. cbn. peel. }
  pose proof (identifiersAndUnits_sends P now st1 Hc Hl) as Hid.
  pose proof (identifiersAndUnits_settings now st1) as Hset2.
  destruct (identifiersAndUnits now st1) as [l st2]. cbn [snd] in Hid, Hset2.
  assert (sends P st st2) as H2 by (by eapply sends_trans).
  assert (readonly st2 = readonly st) as Hro.
  { unfold readonly, settings in *. destruct (implementationReadonly options);
      [done|]. congruence. }
  rewrite !bool_decide_eq_true_2 by done.
  unfold super_register, Buffer.registerAndGetIdentifierForSeriesWithUnits.
  destruct (doesHaveIdUnits l name u) as [nameExists unitsMatch].
  destruct (readonly st2) eqn:Hr.
  - repeat (case_match; simplify_eq; cbn [fst snd] in * ); peel.
  - specialize (Hi (eq_sym Hro)).
    repeat (case_match; simplify_eq; cbn [fst snd] in * ); peel.
Qed.

Lemma run_sends P (Q : Op -> bool) (ops : list Op) (st : State A) :
  (forall o s, Q o = true -> sends P s (run_op o s)) ->
  forallb Q ops = true -> sends P st (run ops st).
Proof.
  intros Hstep. revert st.
  induction ops as [|o ops IH]; intros st Hq; [apply sends_refl|].
  simpl in Hq. apply andb_true_iff in Hq as [Ho Hq].
  change (run (o :: ops) st) with (run ops (run_op o st)).
  eapply sends_trans; [by apply Hstep|by apply IH].
Qed.

(** X2.  A history of lookups ([point], [pointBefore], [pointAfter],
    [pointsInRange], [identifiersAndUnits]) sends the adapter nothing but
    [doConnect], [selectRange], [selectPrevious], [selectNext] and
    [idUnitsList]: no lookup writes to the store. *)
Theorem lookups_only_query (ops : list Op) (st : State A) :
  forallb isLookup ops = true ->
  sends isLookupCall st (run ops st).
Proof.
  apply run_sends. intros o s Ho. destruct o; try discriminate; simpl.
  - by apply identifiersAndUnits_sends.
  - by apply point_sends.
  - by apply pointBefore_sends.
  - by apply pointAfter_sends.
  - by apply pointsInRange_sends.
Qed.

(** X21.  When the adapter does not support singly-bound queries,
    [pointBefore] and [pointAfter] never call [selectPrevious] or
    [selectNext].  When it does not prefer iterative search either, a bound
    lookup sends nothing but connection attempts and its answer is valid
    only if the buffer's is. *)
Theorem bound_lookups_respect_capabilities id t (st : State A) :
  supportsSinglyBoundQuery (options (A:=A)) = false ->
  sends isRangeCall st (pointBefore id t st).2
  /\ sends isRangeCall st (pointAfter id t st).2
  /\ (searchIteratively (options (A:=A)) = false ->
      sends isConnectCall st (pointBefore id t st).2
      /\ sends isConnectCall st (pointAfter id t st).2
      /\ isValid (pointBefore id t st).1
         = isValid (super_pointBefore st id t)
      /\ isValid (pointAfter id t st).1
         = isValid (super_pointAfter st id t)).
Proof.
  intros Hsb. split_and!.
  - apply pointBefore_sends; [done|done|]. by rewrite Hsb.
  - apply pointAfter_sends; [done|done|]. by rewrite Hsb.
  - intros Hit. split_and!.
    + apply pointBefore_sends; [done| |]; intros; congruence.
    + apply pointAfter_sends; [done| |]; intros; congruence.
    + unfold pointBefore. rewrite Hit, Hsb.
      destruct (isValid (super_pointBefore st id t)) eqn:Hv; [done|].
      destruct (request_contains _ _ _); [done|].
      destruct (checkConnected st) as [[] st1]; cbn; by rewrite ?Hv.
    + unfold pointAfter. rewrite Hit, Hsb.
      destruct (isValid (super_pointAfter st id t)) eqn:Hv; [done|].
      destruct (request_contains _ _ _); [done|].
      destruct (checkConnected st) as [[] st1]; cbn; by rewrite ?Hv.
Qed.

(** X3.  Whatever the state and the arguments,
    [registerAndGetIdentifierForSeriesWithUnits] sends the adapter only
    [doConnect], [idUnitsList], [insertIdentifierAndUnits] and
    [assignUnitsToRecord]; [removeRecord] is never called. *)
Theorem registration_never_removes name u now (st : State A) :
  sends isRegistryCall st
    (registerAndGetIdentifierForSeriesWithUnits name u now st).2.
Proof. by apply register_sends. Qed.

Lemma run_op_readonly_store (o : Op) (st : State A) :
  implementationReadonly (options (A:=A)) = true ->
  sends (fun c => negb (isDataWrite c)) st (run_op o st).
Proof.
  intros Hro.
  assert (forall s : State A, readonly s = true) as Hall.
  { intros s. unfold readonly. by rewrite Hro. }
  set (P := fun c => negb (isDataWrite c)).
  assert (P CallDoConnect = true) as Hc by done.
  destruct o; simpl.
  - unfold setReadonly. rewrite Hro. peel.
  - apply register_sends; try done. by rewrite Hall.
  - by apply identifiersAndUnits_sends.
  - unfold beginBulkOperation. branches; peel.
  - unfold endBulkOperation. branches; peel.
  - by apply point_sends.
  - apply pointBefore_sends; by intros.
  - apply pointAfter_sends; by intros.
  - by apply pointsInRange_sends.
  - unfold addPoint. rewrite Hall. apply sends_refl.
  - unfold addPoints. rewrite Hall. apply sends_refl.
  - unfold reset. rewrite Hall. apply sends_refl.
  - unfold reset_id. rewrite Hall. apply sends_refl.
  - unfold invalidate. rewrite Hall. apply sends_refl.
  - unfold setOpcFilterType. repeat case_match; simplify_eq; peel.
  - unfold clearOpcFilterList, dbConnect. peel.
  - unfold addOpcFilterCode, dbConnect. peel.
  - unfold removeOpcFilterCode, dbConnect. destruct (decide _); peel.
  - unfold dbConnect. peel.
Qed.

(** X4.  When the adapter declares [implementationReadonly], no history of
    calls on the record, whatever the caller passes to [setReadonly],
    reaches [insertSingle], [insertRange], [removeRecord] or
    [insertIdentifierAndUnits]. *)
Theorem readonly_store_never_written (ops : list Op) (st : State A) :
  implementationReadonly (options (A:=A)) = true ->
  sends (fun c => negb (isDataWrite c)) st (run ops st).
Proof.
  intros Hro. apply (run_sends _ (fun _ => true)).
  - intros o s _. by apply run_op_readonly_store.
  - by induction ops.
Qed.

End TraceFacts.

Section PointExtras.

Context {A : Type} {db : DbAdapter A} {pq : PointQuality}
  {rt : Buffer.Retention}.

Lemma point_addPoint_buffer (b : Buffer.t) id p :
  Buffer.retains b id [p] ->
  Buffer.point (Buffer.addPoint b id p) id (time p) = Some p.
Proof.
  unfold Buffer.retains, Buffer.addPoints, Buffer.point. simpl. intros ->.
  rewrite find_upsert. by rewrite Z.eqb_refl.
Qed.

Lemma point_addPoints_buffer (b : Buffer.t) id ps p :
  Buffer.retains b id ps ->
  NoDup (time <$> ps) -> p ∈ ps ->
  Buffer.point (Buffer.addPoints b id ps) id (time p) = Some p.
Proof.
  intros Hr Hnd Hp. unfold Buffer.point. rewrite Hr.
  rewrite find_foldl_upsert by done.
  destruct (find_elem _ _ Hp) as [p' Hf]. rewrite Hf. f_equal.
  apply find_Some in Hf as [Ht Hp'].
  apply list_elem_of_lookup in Hp as [i Hi].
  apply list_elem_of_lookup in Hp' as [j Hj].
  assert (i = j) as ->.
  { eapply NoDup_lookup; [exact Hnd| |].
    - by rewrite list_lookup_fmap, Hi.
    - rewrite list_lookup_fmap, Hj. simpl. by rewrite Ht. }
  congruence.
Qed.

(** A valid buffered point is returned as it is; the adapter sees nothing
    but the connection check. *)
Lemma point_buffered id t p (st : State A) :
  Buffer.point (super st) id t = Some p -> isValid p = true ->
  point id t st = (p, (checkConnected st).2).
Proof.
  intros Hb Hv. unfold point, super_point. rewrite Hb.
  change (default Point_default (Some p)) with p.
  destruct (checkConnected st) as [c st1]. cbn [snd].
  destruct c; cbn [negb]; [|done]. by rewrite Hv.
Qed.

Lemma addPoint_addPoints_policy_parts id p ps (st : State A) :
  readonly st = false -> (checkConnected st).1 = true ->
  super (addPoint id p st) = Buffer.addPoint (super st) id p
  /\ super (addPoints id ps st) = Buffer.addPoints (super st) id ps.
Proof.
  intros Hro Hc. unfold addPoint, addPoints. rewrite Hro. cbn [negb].
  pose proof (checkConnected_super st) as Hs.
  destruct (checkConnected st) as [c st1]. cbn [fst snd] in *. subst c.
  cbn -[Buffer.addPoints]. by rewrite Hs.
Qed.

(** X5.  On a writable record whose connection check succeeds, a valid point
    written with [addPoint], or one of the points written with [addPoints]
    when their times are distinct, is returned by [point] at its time,
    provided the write evicts nothing from the buffered series; the answer
    comes from the buffer, the adapter only sees the connection check. *)
Theorem point_reads_back_written_points id p ps (st : State A) :
  readonly st = false -> (checkConnected st).1 = true ->
  (isValid p = true -> Buffer.retains (super st) id [p] ->
   let st' := addPoint id p st in
   point id (time p) st' = (p, (checkConnected st').2))
  /\ (NoDup (time <$> ps) -> p ∈ ps -> isValid p = true ->
      Buffer.retains (super st) id ps ->
      let st' := addPoints id ps st in
      point id (time p) st' = (p, (checkConnected st').2)).
Proof.
  intros Hro Hc.
  destruct (addPoint_addPoints_policy_parts id p ps st Hro Hc) as (H1 & H2).
  split.
  - intros Hv Hr st'. apply point_buffered; [|done]. unfold st'.
    rewrite H1. by apply point_addPoint_buffer.
  - intros Hnd Hp Hv Hr st'. apply point_buffered; [|done]. unfold st'.
    rewrite H2. by apply point_addPoints_buffer.
Qed.

Lemma point_scan_keeps t p l :
  time p = t -> time (point_scan t p l) = t.
Proof.
  revert p. induction l as [|x l IH]; intros p Hp; simpl; [done|].
  destruct (Z.eqb_spec (time x) t); [by apply IH|].
  destruct (t <? time x); [done|by apply IH].
Qed.

(** X6.  The scan at the end of [point] returns a fetched point with the
    time asked for whenever there is one, provided the fetched points are
    ordered by time (the scan stops at the first later point). *)
Theorem point_scan_finds_match t p x (pVec : list Point) :
  StronglySorted Z.le (time <$> pVec) ->
  x ∈ pVec -> time x = t ->
  time (point_scan t p pVec) = t /\ point_scan t p pVec ∈ pVec.
Proof.
  revert p. induction pVec as [|y l IH]; intros p Hs Hx Ht.
  - by apply elem_of_nil in Hx.
  - rewrite fmap_cons in Hs. apply StronglySorted_cons in Hs as [Hall Hs].
    simpl. destruct (Z.eqb_spec (time y) t) as [Hy|Hy].
    + split; [by apply point_scan_keeps|].
      clear -Hy. revert y Hy. induction l as [|z l IHl]; intros y Hy; simpl.
      * by left.
      * destruct (Z.eqb_spec (time z) t).
        -- right. by apply IHl.
        -- destruct (t <? time z); [by left|].
           specialize (IHl y Hy). apply elem_of_cons in IHl as [->|Hin].
           ++ by left.
           ++ by do 2 right.
    + apply elem_of_cons in Hx as [->|Hx]; [done|].
      destruct (Z.ltb_spec t (time y)) as [Hlt|Hge].
      * rewrite Forall_forall in Hall.
        specialize (Hall (time x) (list_elem_of_fmap_2 time _ _ Hx)). lia.
      * destruct (IH p Hs Hx Ht) as [H1 H2]. split; [done|by right].
Qed.

(** X7.  When [point] misses the buffer and the memo on a connected record
    and the filtered answer of the adapter is not empty, it sends one
    [selectRange] for the window of twelve hours around [t], writes the
    filtered points to the buffer and memoizes the span from the first to
    the last of them.  Any later [point] for the same identifier at a time
    inside that span leaves the record, trace included, as it is. *)
Theorem point_memoizes_fetched_span id t front rest (st : State A) :
  adapterConnected (_adapter st) = true ->
  isValid (super_point st id t) = false ->
  request_contains (_last_request st) id t = false ->
  pointsWithOpcFilter st (selectRange (_adapter st) id (pointWindow t))
  = front :: rest ->
  let st' := (point id t st).2 in
  let span := mkRange (time front) (time (List.last rest front)) in
  (point id t st).1 = point_scan t (super_point st id t) (front :: rest)
  /\ _last_request st' = request_new id span
  /\ super st' = Buffer.addPoints (super st) id (front :: rest)
  /\ calls st' = calls st ++ [CallSelectRange id (pointWindow t)]
  /\ forall t', contains span t' = true ->
       exists p', point id t' st' = (p', st').
Proof.
  intros Hc Hmiss Hmemo Hfetch. cbn zeta.
  assert (point id t st
          = (point_scan t (super_point st id t) (front :: rest),
             super_addPoints id (front :: rest)
               (with_last_request
                  (request_new id
                     (mkRange (time front) (time (List.last rest front))))
                  (adapter_call (CallSelectRange id (pointWindow t))
                     (_adapter st) st)))) as Hp.
  { unfold point. rewrite (checkConnected_connected st Hc). cbn [negb].
    rewrite Hmiss, Hmemo. cbn [negb].
    unfold adapter_selectRange, pointWindow in *.
    erewrite (pointsWithOpcFilter_ext _ st) by done.
    by rewrite Hfetch. }
  rewrite Hp. cbn [fst snd]. split_and!; [done..|].
  intros t' Ht'. set (st' := super_addPoints _ _ _).
  unfold point. rewrite (checkConnected_connected st' Hc). cbn [negb].
  destruct (isValid (super_point st' id t')); cbn [negb]; [by eexists|].
  assert (request_contains (_last_request st') id t' = true) as ->.
  { unfold request_contains, st'. simpl. rewrite String.eqb_refl.
    unfold contains in Ht'. simpl in Ht'. by rewrite Ht'. }
  by eexists.
Qed.

End PointExtras.

(** The two retention policies and the condition of the read-back and of
    the repeated range lookup. *)

Section RetentionFacts.

Context {A : Type} {db : DbAdapter A} {pq : PointQuality}.

Lemma unbounded_retains (b : Buffer.t) id ps :
  Buffer.retains (rt:=Buffer.unbounded) b id ps.
Proof.
  unfold Buffer.retains. revert b. induction ps as [|p ps IH]; intros b; [done|].
  unfold Buffer.addPoints in *. simpl. rewrite IH. f_equal.
  exact (pointsOf_addPoint (rt:=Buffer.unbounded) b id p).
Qed.

Lemma length_upsert p l : (length l <= length (Buffer.upsert p l))%nat.
Proof.
  induction l as [|x l IH]; simpl; [lia|].
  repeat case_match; simpl; lia.
Qed.

Lemma length_foldl_upsert ps l :
  (length l <= length (foldl (fun acc p => Buffer.upsert p acc) l ps))%nat.
Proof.
  revert l. induction ps as [|p ps IH]; intros l; simpl; [lia|].
  pose proof (length_upsert p l). pose proof (IH (Buffer.upsert p l)). lia.
Qed.

(** A tier that keeps the [capacity] latest points evicts nothing as long
    as the written series has at most [capacity] points. *)
Lemma mostRecent_retains capacity (b : Buffer.t) id ps :
  (length (foldl (fun acc p => Buffer.upsert p acc) (Buffer.pointsOf b id) ps)
   <= capacity)%nat ->
  Buffer.retains (rt:=Buffer.mostRecent capacity) b id ps.
Proof.
  unfold Buffer.retains. revert b.
  induction ps as [|p ps IH]; intros b Hlen; [done|].
  unfold Buffer.addPoints in *. simpl in *.
  assert (Buffer.pointsOf
            (Buffer.addPoint (rt:=Buffer.mostRecent capacity) b id p) id
          = Buffer.upsert p (Buffer.pointsOf b id)) as Hp.
  { rewrite pointsOf_addPoint. simpl.
    pose proof (length_foldl_upsert ps (Buffer.upsert p (Buffer.pointsOf b id))).
    replace (length (Buffer.upsert p (Buffer.pointsOf b id)) - capacity)%nat
      with 0%nat by lia.
    done. }
  rewrite IH; rewrite Hp; done.
Qed.

(** A tier that never evicts holds every point that a range lookup
    returns. *)
Lemma unbounded_resultRetained id q (st : State A) :
  Buffer.ordered (Buffer.pointsOf (super st) id) ->
  resultRetained (rt:=Buffer.unbounded) id q st.
Proof.
  intros Ho. unfold resultRetained. apply Forall_forall. intros p.
  assert (forall st' : State A, super st' = super st ->
            p ∈ super_pointsInRange st' id q ->
            Buffer.point (super st') id (time p) = Some p) as Hbuf.
  { intros st' Hs. unfold super_pointsInRange, Buffer.pointsInRange.
    rewrite Hs. intros [_ Hp]%list_elem_of_filter.
    by apply find_ordered_elem. }
  assert (forall (st' : State A) d,
            NoDup (time <$> d) -> p ∈ d ->
            Buffer.point (super (super_addPoints (rt:=Buffer.unbounded) id d st'))
              id (time p) = Some p) as Hfetch.
  { intros st' d Hnd Hp. unfold super_addPoints. cbn [super with_super].
    apply point_addPoints_buffer; [apply unbounded_retains|done|done]. }
  unfold pointsInRange.
  destruct (_ && _); [by apply Hbuf|].
  pose proof (checkConnected_super st) as Hs.
  destruct (checkConnected st) as [c st1]. cbn [fst snd] in Hs.
  destruct c; cbn [negb]; [|by apply Hbuf].
  destruct (intersection (Buffer.range (super st1) id) q);
    try (by apply Hbuf);
    repeat (match goal with
            | |- context [let '(_, _) := ?x in _] => destruct x
            end);
    cbn [fst snd]; apply Hfetch, deDupe_NoDup.
Qed.

End RetentionFacts.

Section RangeExtras.

Context {A : Type} {db : DbAdapter A} {pq : PointQuality}
  {rt : Buffer.Retention}.

(** X8.  On a connected record whose memo does not cover the query,
    [pointsInRange] sends exactly one [selectRange] per gap between the
    query and the buffered span: none for an internal query, the left or
    the right gap for an overlap, both for an external query, the query
    itself otherwise.  Unless the query is internal, the result is the
    de-duplicated merge, it is written back to the buffer, and the memo
    becomes the query range when the result is not empty and the empty
    range otherwise. *)
Theorem pointsInRange_asks_only_for_gaps id q (st : State A) :
  memoCovers st id q = false ->
  adapterConnected (_adapter st) = true ->
  let range := Buffer.range (super st) id in
  let st' := (pointsInRange id q st).2 in
  calls st' = calls st ++ (CallSelectRange id <$> gapQueries range q)
  /\ _adapter st' = _adapter st
  /\ if decide (intersection range q = intersect_other_internal)
     then (pointsInRange id q st).1 = super_pointsInRange st id q
          /\ _last_request st' = _last_request st
          /\ super st' = super st
     else (pointsInRange id q st).1 = deDupe q ∅ (assemble st id q)
          /\ _last_request st' = memoAfter id q (pointsInRange id q st).1
          /\ super st'
             = Buffer.addPoints (super st) id (pointsInRange id q st).1.
Proof.
  intros Hm Hc. cbn zeta.
  destruct (decide _) as [Hi|Hi].
  - rewrite (pointsInRange_internal id q st Hm Hi).
    rewrite (checkConnected_connected st Hc). cbn [fst snd].
    unfold gapQueries. rewrite Hi. simpl. by rewrite app_nil_r.
  - rewrite (pointsInRange_fetch id q st Hm Hc Hi). cbn zeta. cbn [fst snd].
    destruct (traced_frame
                (CallSelectRange id <$> gapQueries (Buffer.range (super st) id) q)
                st) as (Hcache & Had & Hcalls).
    unfold cacheState in Hcache.
    split_and!; try done.
    cbn -[Buffer.addPoints]. f_equal. congruence.
Qed.

(** X9.  The de-duplication loop of [pointsInRange] returns a subsequence of
    [merged] with distinct times; for every time inside the query range it
    keeps the first point of [merged] with that time, and it keeps nothing
    outside the range. *)
Theorem deDupe_keeps_first_in_range q (merged : list Point) :
  deDupe q ∅ merged `sublist_of` merged
  /\ NoDup (time <$> deDupe q ∅ merged)
  /\ forall t, Buffer.find t (deDupe q ∅ merged)
               = if contains q t then Buffer.find t merged else None.
Proof.
  split_and!.
  - apply deDupe_sublist.
  - apply deDupe_NoDup.
  - intros t. rewrite find_deDupe. by rewrite decide_False by set_solver.
Qed.

Lemma pointsOf_reset (b : Buffer.t) id : Buffer.pointsOf (Buffer.reset b) id = [].
Proof. unfold Buffer.pointsOf, Buffer.reset. simpl. by rewrite lookup_empty. Qed.

Lemma flushed_covered_lookup id q (st st' : State A) :
  memoCovers st id q = true ->
  _last_request st' = _last_request st ->
  super st' = Buffer.reset (super st) ->
  pointsInRange id q st' = ([], st').
Proof.
  intros Hm Hreq Hsup.
  rewrite pointsInRange_covered by (unfold memoCovers in *; by rewrite Hreq).
  unfold super_pointsInRange, Buffer.pointsInRange.
  by rewrite Hsup, pointsOf_reset.
Qed.

(** X10.  Mutating the filter codes, switching the filter type, or calling
    [reset()] flushes the buffer but leaves the memo as it is.  A range
    lookup that the memo covers is therefore answered with no points and
    without any adapter call right after such a change. *)
Theorem flush_keeps_memo id q code ty (st : State A) :
  memoCovers st id q = true ->
  pointsInRange id q (addOpcFilterCode code st)
  = ([], addOpcFilterCode code st)
  /\ pointsInRange id q (clearOpcFilterList st) = ([], clearOpcFilterList st)
  /\ (code ∈ _opcFilterCodes st ->
      pointsInRange id q (removeOpcFilterCode code st)
      = ([], removeOpcFilterCode code st))
  /\ (_filterType st <> ty ->
      forall st', setOpcFilterType ty st = Returned st' ->
                  pointsInRange id q st' = ([], st'))
  /\ (readonly st = false -> (checkConnected st).1 = true ->
      pointsInRange id q (reset st) = ([], reset st)).
Proof.
  intros Hm. split_and!.
  - by apply (flushed_covered_lookup id q st).
  - by apply (flushed_covered_lookup id q st).
  - intros Hin. unfold removeOpcFilterCode. rewrite decide_True by done.
    by apply (flushed_covered_lookup id q st).
  - intros Hne st'. unfold setOpcFilterType. rewrite decide_True by done.
    destruct (opcFilters ty); [|done]. intros [= <-].
    by apply (flushed_covered_lookup id q st).
  - intros Hro Hc. unfold reset. rewrite Hro. cbn [negb].
    pose proof (checkConnected_cacheState st) as Hcs. unfold cacheState in Hcs.
    destruct (checkConnected st) as [c st1]. cbn [fst snd] in *. subst c.
    apply (flushed_covered_lookup id q st); [done|simpl; congruence|].
    simpl. congruence.
Qed.

End RangeExtras.

Section ResetExtras.

Context {A : Type} {db : DbAdapter A} {pq : PointQuality}
  {rt : Buffer.Retention}.

Lemma pointsOf_reset_id (b : Buffer.t) id id' :
  Buffer.pointsOf (Buffer.reset_id b id) id'
  = if decide (id = id') then [] else Buffer.pointsOf b id'.
Proof.
  unfold Buffer.pointsOf, Buffer.reset_id. simpl.
  destruct (decide (id = id')) as [->|Hne].
  - by rewrite lookup_delete_eq.
  - by rewrite lookup_delete_ne.
Qed.

(** X11.  [invalidate] does nothing on a read-only record and nothing but
    the connection check when that check fails.  On a writable, connected
    record whose adapter is still connected after the removal, it sends
    exactly one [removeRecord], empties the buffered series of that
    identifier only, and blanks the memo. *)
Theorem invalidate_removes_then_resets id (st : State A) :
  (readonly st = true -> invalidate id st = st)
  /\ (readonly st = false -> (checkConnected st).1 = false ->
      invalidate id st = (checkConnected st).2)
  /\ (readonly st = false ->
      adapterConnected (_adapter st) = true ->
      adapterConnected (removeRecord (_adapter st) id) = true ->
      let st' := invalidate id st in
      calls st' = calls st ++ [CallRemoveRecord id]
      /\ _adapter st' = removeRecord (_adapter st) id
      /\ _last_request st' = mkRequest TimeRange_empty ""
      /\ forall id', Buffer.pointsOf (super st') id'
                     = if decide (id = id') then []
                       else Buffer.pointsOf (super st) id').
Proof.
  unfold invalidate. split_and!.
  - by intros ->.
  - intros -> Hc. destruct (checkConnected st) as [c st1].
    cbn [fst snd] in *. by subst c.
  - intros Hro Hc Hc'. rewrite Hro. cbn [negb].
    rewrite (checkConnected_connected st Hc). cbn zeta.
    set (st1 := adapter_call _ _ st).
    assert (readonly st1 = false) as Hro1 by done.
    unfold reset_id. rewrite Hro1. cbn [negb].
    rewrite (checkConnected_connected st1 Hc').
    split_and!; try done.
    intros id'. cbn. apply pointsOf_reset_id.
Qed.

(** X12.  On a writable record whose connection check succeeds, [reset(id)]
    empties the buffered series of [id] only and blanks the memo, whatever
    identifier the memo was for; the store is not asked to remove
    anything. *)
Theorem reset_id_clears_cache_only id (st : State A) :
  readonly st = false -> (checkConnected st).1 = true ->
  let st' := reset_id id st in
  calls st' = calls (checkConnected st).2
  /\ _adapter st' = _adapter (checkConnected st).2
  /\ _last_request st' = mkRequest TimeRange_empty ""
  /\ forall id', Buffer.pointsOf (super st') id'
                 = if decide (id = id') then []
                   else Buffer.pointsOf (super st) id'.
Proof.
  intros Hro Hc. cbn zeta. unfold reset_id. rewrite Hro. cbn [negb].
  pose proof (checkConnected_super st) as Hs.
  destruct (checkConnected st) as [c st1]. cbn [fst snd] in *. subst c.
  split_and!; try done.
  intros id'. cbn. rewrite Hs. apply pointsOf_reset_id.
Qed.

End ResetExtras.

Section FilterExtras.

Context {A : Type} {db : DbAdapter A} {pq : PointQuality}
  {rt : Buffer.Retention}.

(** X13.  In every filter mode the pipeline returns valid points only, their
    times are a subsequence of the raw times (nothing is reordered or
    invented), and there are at most as many as raw points. *)
Theorem filter_output_is_valid_subsequence (st : State A) (raw : list Point) :
  Forall (fun p => isValid p = true) (pointsWithOpcFilter st raw)
  /\ time <$> pointsWithOpcFilter st raw `sublist_of` time <$> raw
  /\ (length (pointsWithOpcFilter st raw) <= length raw)%nat.
Proof.
  split_and!.
  - induction raw as [|p raw IH]; simpl; [constructor|].
    destruct (isValid (pointWithOpcFilter st p)) eqn:Hv; [|done].
    by constructor.
  - apply filtered_times_sublist.
  - pose proof (sublist_length _ _ (filtered_times_sublist st raw)) as H.
    by rewrite !length_fmap in H.
Qed.

Lemma pointsWithOpcFilter_map_filter (st : State A) (f : Point -> Point)
    (keep : Point -> bool) raw :
  (forall p, pointWithOpcFilter st p = f p) ->
  (forall p, isValid (f p) = keep p) ->
  pointsWithOpcFilter st raw = f <$> filter (fun p => keep p = true) raw.
Proof.
  intros Hf Hk. induction raw as [|p raw IH]; [done|].
  simpl. rewrite filter_cons, Hf, Hk.
  destruct (keep p) eqn:Hp.
  - rewrite decide_True by done. by rewrite fmap_cons, IH.
  - rewrite decide_False by done. exact IH.
Qed.

(** X14.  On a record built by the constructor and driven through any
    history: in pass-through mode the pipeline keeps exactly the valid raw
    points, unchanged; in black-list mode exactly the points whose code is
    not listed, marked as overridden; in the two code modes every point,
    with its value, respectively its confidence, replaced by its quality
    code. *)
Theorem filter_modes (a : A) (t0 : Z) (ops : list Op) (raw : list Point) :
  let st := run ops (DbPointRecord_new a t0) in
  match opcFilterType st with
  | OpcPassThrough =>
      pointsWithOpcFilter st raw = filter (fun p => isValid p = true) raw
  | OpcBlackList =>
      pointsWithOpcFilter st raw
      = overridden <$> filter (fun p => quality p ∉ opcFilterList st) raw
  | OpcCodesToValues =>
      pointsWithOpcFilter st raw
      = (fun p => mkPoint (time p) (Z.of_N (quality p)) opc_rtx_override
                    (confidence p) true) <$> raw
  | OpcCodesToConfidence =>
      pointsWithOpcFilter st raw
      = (fun p => mkPoint (time p) (value p) opc_rtx_override
                    (Z.of_N (quality p)) true) <$> raw
  | _ => True
  end.
Proof.
  intros st.
  pose proof (filterInstalled_run ops _ (filterInstalled_new a t0)) as Hinst.
  fold st in Hinst. unfold opcFilterType.
  destruct (_filterType st) eqn:Hty; try done;
    destruct Hinst as [Hn|Hinst]; try congruence; rewrite Hty in Hinst.
  - rewrite (pointsWithOpcFilter_map_filter st id isValid).
    + by rewrite list_fmap_id.
    + intros p. unfold pointWithOpcFilter. by rewrite Hinst.
    + done.
  - rewrite (pointsWithOpcFilter_map_filter st
               (fun p => if decide (quality p ∈ _opcFilterCodes st)
                         then Point_default else overridden p)
               (fun p => bool_decide (quality p ∉ _opcFilterCodes st))).
    + induction raw as [|p raw IH]; [done|].
      rewrite !filter_cons. unfold opcFilterList.
      destruct (decide (quality p ∈ _opcFilterCodes st)) as [Hin|Hnin].
      * rewrite bool_decide_eq_false_2 by (by intros ?).
        rewrite decide_False by done. rewrite decide_False by (by intros ?).
        exact IH.
      * rewrite bool_decide_eq_true_2 by done.
        rewrite decide_True by done. rewrite decide_True by done.
        rewrite !fmap_cons, IH. by rewrite decide_False by done.
    + intros p. unfold pointWithOpcFilter. rewrite Hinst. simpl.
      by destruct (decide _).
    + intros p. destruct (decide _) as [Hin|Hnin]; simpl.
      * by rewrite bool_decide_eq_false_2 by (by intros ?).
      * by rewrite bool_decide_eq_true_2.
  - rewrite (pointsWithOpcFilter_map_filter st
               (fun p => mkPoint (time p) (Z.of_N (quality p)) opc_rtx_override
                    (confidence p) true)
               (fun _ => true)).
    + f_equal. induction raw as [|p raw IH]; [done|].
      rewrite filter_cons. rewrite decide_True by done. by rewrite IH.
    + intros p. unfold pointWithOpcFilter. by rewrite Hinst.
    + done.
  - rewrite (pointsWithOpcFilter_map_filter st
               (fun p => mkPoint (time p) (value p) opc_rtx_override
                    (Z.of_N (quality p)) true)
               (fun _ => true)).
    + f_equal. induction raw as [|p raw IH]; [done|].
      rewrite filter_cons. rewrite decide_True by done. by rewrite IH.
    + intros p. unfold pointWithOpcFilter. by rewrite Hinst.
    + done.
Qed.

End FilterExtras.

Section SetterExtras.

Context {A : Type} {db : DbAdapter A} {pq : PointQuality}
  {rt : Buffer.Retention}.

(** X15.  [setOpcFilterType] with the current type changes nothing.  With
    [OpcNoFilter], which has no entry in the closure table, it throws after
    having flushed the buffer and recorded the type, and the closure
    installed before stays in use.  [removeOpcFilterCode] of a code that is
    not listed changes nothing.  [addOpcFilterCode] always flushes the
    buffer and calls [doConnect] once, also for a code already listed. *)
Theorem filter_setters_edge_cases ty code (st : State A) (raw : list Point) :
  (_filterType st = ty -> setOpcFilterType ty st = Returned st)
  /\ (_filterType st <> OpcNoFilter ->
      exists st', setOpcFilterType OpcNoFilter st = Threw st'
                  /\ opcFilterType st' = OpcNoFilter
                  /\ super st' = Buffer.reset (super st)
                  /\ pointsWithOpcFilter st' raw = pointsWithOpcFilter st raw)
  /\ (code ∉ _opcFilterCodes st -> removeOpcFilterCode code st = st)
  /\ (let st' := addOpcFilterCode code st in
      super st' = Buffer.reset (super st)
      /\ calls st' = calls st ++ [CallDoConnect]
      /\ opcFilterList st' = {[code]} ∪ opcFilterList st).
Proof.
  split_and!.
  - intros <-. unfold setOpcFilterType. by rewrite decide_False by (by intros ?).
  - intros Hne. unfold setOpcFilterType. rewrite decide_True by done.
    eexists. split; [reflexivity|]. split_and!; try done.
    by apply pointsWithOpcFilter_ext.
  - intros Hnin. unfold removeOpcFilterCode. by rewrite decide_False.
  - done.
Qed.

End SetterExtras.

Section BoundExtras.

Context {A : Type} {db : DbAdapter A} {pq : PointQuality}
  {rt : Buffer.Retention}.

Lemma whitelist_rejects (st : State A) p :
  _opcFilter st = OpcWhiteList -> quality p ∉ _opcFilterCodes st ->
  pointWithOpcFilter st p = Point_default.
Proof.
  intros Hf Hq. unfold pointWithOpcFilter. rewrite Hf. simpl.
  by rewrite decide_False.
Qed.

(** X16.  On a connected record whose adapter prefers iterative search, a
    bound lookup that misses the buffer and the memo returns the point found
    by the search after passing it through the quality filter once more.
    With the white list installed, a found point whose quality code is not
    listed is therefore answered as the invalid point. *)
Theorem bound_lookup_filters_found_point_again id t (st : State A) :
  adapterConnected (_adapter st) = true ->
  searchIteratively (options (A:=A)) = true ->
  (isValid (super_pointBefore st id t) = false ->
   request_contains (_last_request st) id (t - 1) = false ->
   let found := searchPreviousIteratively id t st in
   isValid found.1 = true ->
   pointBefore id t st = (pointWithOpcFilter st found.1, found.2)
   /\ (_opcFilter st = OpcWhiteList -> quality found.1 ∉ _opcFilterCodes st ->
       (pointBefore id t st).1 = Point_default))
  /\ (isValid (super_pointAfter st id t) = false ->
      request_contains (_last_request st) id (t + 1) = false ->
      let found := searchNextIteratively id t st in
      isValid found.1 = true ->
      pointAfter id t st = (pointWithOpcFilter st found.1, found.2)
      /\ (_opcFilter st = OpcWhiteList -> quality found.1 ∉ _opcFilterCodes st ->
          (pointAfter id t st).1 = Point_default)).
Proof.
  intros Hc Hit. split.
  - intros Hmiss Hmemo found Hv.
    assert (pointBefore id t st = (pointWithOpcFilter st found.1, found.2)) as Hp.
    { unfold pointBefore. rewrite Hmiss, Hmemo.
      rewrite (checkConnected_connected st Hc). cbn [negb]. rewrite Hit.
      pose proof (searchPreviousIteratively_settings id t st) as Hs.
      fold found in Hs. unfold found in *.
      destruct (searchPreviousIteratively id t st) as [p1 st2].
      cbn [fst snd] in *. rewrite Hv. cbn [andb].
      by rewrite (pointWithOpcFilter_ext st st2). }
    split; [done|]. intros Hf Hq. rewrite Hp. cbn [fst].
    by apply whitelist_rejects.
  - intros Hmiss Hmemo found Hv.
    assert (pointAfter id t st = (pointWithOpcFilter st found.1, found.2)) as Hp.
    { unfold pointAfter. rewrite Hmiss, Hmemo.
      rewrite (checkConnected_connected st Hc). cbn [negb]. rewrite Hit.
      pose proof (searchNextIteratively_settings id t st) as Hs.
      fold found in Hs. unfold found in *.
      destruct (searchNextIteratively id t st) as [p1 st2].
      cbn [fst snd] in *. rewrite Hv.
      by rewrite (pointWithOpcFilter_ext st st2). }
    split; [done|]. intros Hf Hq. rewrite Hp. cbn [fst].
    by apply whitelist_rejects.
Qed.

End BoundExtras.

Section HorizonExtras.

Context {A : Type} {db : DbAdapter A} {pq : PointQuality}
  {rt : Buffer.Retention}.

Lemma probe_in_window id windows (st : State A) p :
  bufferOrdered st ->
  p ∈ (probeUntilFound id windows st).1 ->
  exists w, w ∈ windows /\ contains w (time p) = true.
Proof.
  revert st. induction windows as [|w windows IH]; intros st Hwf; simpl.
  - by intros ?%elem_of_nil.
  - pose proof (pointsInRange_distinct_inRange id w st
                  (ordered_pointsOf _ id Hwf)) as [_ Hin].
    pose proof (pointsInRange_ordered id w st Hwf) as Hwf'.
    destruct (pointsInRange id w st) as [pts st']. cbn [fst snd] in *.
    destruct pts as [|x pts].
    + intros Hp. destruct (IH st' Hwf' Hp) as (w' & Hw' & Hc).
      exists w'. split; [by right|done].
    + cbn [fst]. intros Hp. exists w. split; [by left|].
      rewrite Forall_forall in Hin. by apply Hin.
Qed.

Lemma latest_elem (pq' : PointQuality) (pts : list Point) :
  pts <> [] -> @latest pq' pts ∈ pts.
Proof.
  destruct pts as [|x rest]; [done|]. intros _. simpl.
  revert x. induction rest as [|y rest IH]; intros x; [by left|].
  rewrite last_cons_default. right. apply IH.
Qed.

(** X17.  On a record built by the constructor and driven through any
    history, the iterative searches never look further than twenty-four
    hours (eight strides of three hours): the point returned is the invalid
    point or lies in [[t - 24h, t - 1]], respectively [[t + 1, t + 24h]]. *)
Theorem iterative_search_horizon (a : A) (t0 : Z) (ops : list Op) id t :
  let st := run ops (DbPointRecord_new a t0) in
  let before := (searchPreviousIteratively id t st).1 in
  let after := (searchNextIteratively id t st).1 in
  (before = Point_default \/ t - 24 * 60 * 60 <= time before <= t - 1)
  /\ (after = Point_default \/ t + 1 <= time after <= t + 24 * 60 * 60).
Proof.
  intros st.
  destruct (run_search_settings a t0 ops) as [Hn Hs]. fold st in Hn, Hs.
  assert (bufferOrdered st) as Hwf by apply run_ordered, new_ordered.
  pose proof (checkConnected_ordered st Hwf) as Hwf1.
  pose proof (checkConnected_cacheState st) as Hcs. unfold cacheState in Hcs.
  cbn zeta. unfold searchPreviousIteratively, searchNextIteratively.
  destruct (checkConnected st) as [c st1]. cbn [fst snd] in *.
  destruct c; cbn [negb]; [|by split; left].
  assert (iterativeSearchStride st1 = 3 * 60 * 60) as -> by congruence.
  rewrite Hn. rewrite !search_loop_limit.
  split.
  - match goal with |- context [probeUntilFound id ?ws st1] =>
      pose proof (fun p => probe_in_window id ws st1 p Hwf1) as Hin;
      destruct (probeUntilFound id ws st1) as [pts st2] end.
    cbn [fst snd] in *. destruct pts as [|x rest]; [by left|]. right.
    cbn [fst].
    destruct (Hin (List.last rest x)) as (w & Hw & Hc).
    { apply (latest_elem pq (x :: rest)). done. }
    apply list_elem_of_fmap in Hw as (k & -> & Hk).
    apply elem_of_seq in Hk. apply contains_spec in Hc.
    unfold shift in Hc. simpl in Hc. lia.
  - match goal with |- context [probeUntilFound id ?ws st1] =>
      pose proof (fun p => probe_in_window id ws st1 p Hwf1) as Hin;
      destruct (probeUntilFound id ws st1) as [pts st2] end.
    cbn [fst snd] in *. destruct pts as [|x rest]; [by left|]. right.
    cbn [fst].
    destruct (Hin x) as (w & Hw & Hc); [by left|].
    apply list_elem_of_fmap in Hw as (k & -> & Hk).
    apply elem_of_seq in Hk. apply contains_spec in Hc.
    unfold shift in Hc. simpl in Hc. lia.
Qed.

End HorizonExtras.

Section RegistrationExtras.

Context {A : Type} {db : DbAdapter A} {pq : PointQuality}
  {rt : Buffer.Retention}.

Lemma length_nonempty (name : string) :
  name <> "" -> (String.length name =? 0)%nat = false.
Proof. by destruct name. Qed.

(** X18.  Registration rejects the empty name without touching the record.
    For any other name, when the connection check fails, it registers the
    name in the buffer only and succeeds, without asking the store for its
    listing. *)
Theorem register_without_store name units now (st : State A) :
  registerAndGetIdentifierForSeriesWithUnits "" units now st = (false, st)
  /\ (name <> "" -> (checkConnected st).1 = false ->
      let r := registerAndGetIdentifierForSeriesWithUnits name units now st in
      r.1 = true
      /\ Buffer.registered (super r.2) = <[name := units]> (Buffer.registered (super st))
      /\ calls r.2 = calls (checkConnected st).2
      /\ _identifiersAndUnitsCache r.2 = _identifiersAndUnitsCache st).
Proof.
  split; [done|]. intros Hname Hc. cbn zeta.
  unfold registerAndGetIdentifierForSeriesWithUnits.
  rewrite (length_nonempty name Hname).
  pose proof (checkConnected_cacheState st) as Hcs. unfold cacheState in Hcs.
  destruct (checkConnected st) as [c st1]. cbn [fst snd] in *. subst c.
  cbn. split_and!; try done; congruence.
Qed.

(** The registry view and the state after it, on a connected record. *)
Lemma register_connected name units now (st : State A) :
  name <> "" -> adapterConnected (_adapter st) = true ->
  registerAndGetIdentifierForSeriesWithUnits name units now st
  = let '(list, st2) := identifiersAndUnits now st in
    let '(nameExists, unitsMatch) := doesHaveIdUnits list name units in
    if readonly st then
      if nameExists && (unitsMatch || negb (supportsUnitsColumn (options (A:=A))))
      then (true, (super_register name units st2).2)
      else if canAssignUnits (options (A:=A)) then
        (true, (super_register name units
                  (adapter_call (CallAssignUnitsToRecord name units)
                     (assignUnitsToRecord (_adapter st2) name units).2 st2)).2)
      else (false, st2)
    else
      if nameExists && negb unitsMatch then
        if canAssignUnits (options (A:=A)) then
          ((assignUnitsToRecord (_adapter st2) name units).1,
           adapter_call (CallAssignUnitsToRecord name units)
             (assignUnitsToRecord (_adapter st2) name units).2 st2)
        else (false, st2)
      else if negb nameExists then
        let st3 := adapter_call (CallInsertIdentifierAndUnits name units)
                     (insertIdentifierAndUnits (_adapter st2) name units).2 st2 in
        if (insertIdentifierAndUnits (_adapter st2) name units).1
        then (true, (super_register name units st3).2)
        else (false, st3)
      else (true, (super_register name units st2).2).
Proof.
  intros Hname Hc. unfold registerAndGetIdentifierForSeriesWithUnits.
  rewrite (length_nonempty name Hname).
  rewrite (checkConnected_connected st Hc). cbn [negb].
  pose proof (identifiersAndUnits_settings now st) as Hs.
  destruct (identifiersAndUnits now st) as [l st2]. cbn [snd] in Hs.
  assert (readonly st2 = readonly st) as ->.
  { unfold readonly, settings in *.
    destruct (implementationReadonly options); [done|]. congruence. }
  rewrite !bool_decide_eq_true_2 by done.
  destruct (doesHaveIdUnits l name units) as [nameExists unitsMatch].
  destruct (readonly st).
  - destruct (nameExists && _); [done|].
    rewrite andb_true_r. destruct (canAssignUnits options); [|done].
    by destruct (assignUnitsToRecord (_adapter st2) name units).
  - destruct nameExists, unitsMatch; cbn [andb negb orb]; try done.
    + destruct (canAssignUnits options); [|done].
      by destruct (assignUnitsToRecord (_adapter st2) name units).
    + destruct (insertIdentifierAndUnits (_adapter st2) name units) as [[] a];
        done.
    + destruct (insertIdentifierAndUnits (_adapter st2) name units) as [[] a];
        done.
Qed.

(** X19.  On a connected, read-only record, registration succeeds when the
    name is listed with matching units (or the store has no units column),
    and also, through [assignUnitsToRecord], whenever the adapter can
    assign units, even for a name that is not listed.  It fails otherwise.
    The name is registered in the buffer exactly when it succeeds. *)
Theorem register_on_readonly_record name units now (st : State A) :
  name <> "" -> adapterConnected (_adapter st) = true -> readonly st = true ->
  let view := identifiersAndUnits now st in
  let usable :=
    (doesHaveIdUnits view.1 name units).1
    && ((doesHaveIdUnits view.1 name units).2
        || negb (supportsUnitsColumn (options (A:=A)))) in
  let r := registerAndGetIdentifierForSeriesWithUnits name units now st in
  r.1 = usable || canAssignUnits (options (A:=A))
  /\ calls r.2
     = calls view.2
       ++ (if usable then []
           else if canAssignUnits (options (A:=A))
                then [CallAssignUnitsToRecord name units] else [])
  /\ Buffer.registered (super r.2)
     = if r.1 then <[name := units]> (Buffer.registered (super view.2))
       else Buffer.registered (super view.2).
Proof.
  intros Hname Hc Hro. cbn zeta.
  rewrite (register_connected name units now st Hname Hc), Hro.
  destruct (identifiersAndUnits now st) as [l st2]. cbn [fst snd].
  destruct (doesHaveIdUnits l name units) as [nameExists unitsMatch].
  cbn [fst snd].
  destruct (nameExists && _); cbn [orb fst snd].
  - split_and!; [done| |done]. cbn. by rewrite app_nil_r.
  - destruct (canAssignUnits options); cbn [fst snd].
    + by split_and!.
    + split_and!; [done| |done]. by rewrite app_nil_r.
Qed.

(** X20.  On a connected, writable record: a name that is not listed is
    sent to [insertIdentifierAndUnits] once, the result of registration is
    the result of that insert, and the name is registered in the buffer
    only when the insert succeeded; a name listed with the same units is
    registered in the buffer and nothing is sent to the store. *)
Theorem register_on_writable_record name units now (st : State A) :
  name <> "" -> adapterConnected (_adapter st) = true -> readonly st = false ->
  let view := identifiersAndUnits now st in
  let r := registerAndGetIdentifierForSeriesWithUnits name units now st in
  (view.1 !! name = None ->
   let inserted := insertIdentifierAndUnits (_adapter view.2) name units in
   r.1 = inserted.1
   /\ calls r.2 = calls view.2 ++ [CallInsertIdentifierAndUnits name units]
   /\ _adapter r.2 = inserted.2
   /\ Buffer.registered (super r.2)
      = if inserted.1 then <[name := units]> (Buffer.registered (super view.2))
        else Buffer.registered (super view.2))
  /\ (view.1 !! name = Some units ->
      r.1 = true
      /\ calls r.2 = calls view.2
      /\ _adapter r.2 = _adapter view.2
      /\ Buffer.registered (super r.2)
         = <[name := units]> (Buffer.registered (super view.2))).
Proof.
  intros Hname Hc Hro. cbn zeta.
  rewrite (register_connected name units now st Hname Hc), Hro.
  destruct (identifiersAndUnits now st) as [l st2]. cbn [fst snd].
  unfold doesHaveIdUnits. split.
  - intros ->. cbn [andb negb].
    destruct (insertIdentifierAndUnits (_adapter st2) name units) as [[] a];
      cbn [fst snd]; by split_and!.
  - intros ->. rewrite bool_decide_eq_true_2 by done. cbn [andb negb].
    by split_and!.
Qed.

End RegistrationExtras.

Section OrderExtras.

Context {A : Type} {db : DbAdapter A} {pq : PointQuality}
  {rt : Buffer.Retention}.

(** X22.  On a record built by the constructor and driven through any
    history, when the adapter is connected and answers in time order inside
    the range asked for, [pointsInRange] returns its points in strictly
    increasing order of time. *)
Theorem pointsInRange_in_time_order (a : A) (t0 : Z) (ops : list Op) id q :
  let st := run ops (DbPointRecord_new a t0) in
  adapterConnected (_adapter st) = true ->
  answersInOrder (_adapter st) id ->
  StronglySorted Z.lt (time <$> (pointsInRange id q st).1).
Proof.
  intros st Hc Ha.
  assert (Buffer.ordered (Buffer.pointsOf (super st) id)) as Ho.
  { apply ordered_pointsOf. apply run_ordered, new_ordered. }
  assert (StronglySorted Z.lt (time <$> super_pointsInRange st id q)) as Hbuf.
  { by apply ordered_filter. }
  destruct (memoCovers st id q) eqn:Hm.
  { by rewrite (pointsInRange_covered id q st Hm). }
  destruct (decide (intersection (Buffer.range (super st) id) q
                    = intersect_other_internal)) as [Hi|Hi].
  { by rewrite (pointsInRange_internal id q st Hm Hi). }
  rewrite (pointsInRange_fetch id q st Hm Hc Hi). cbn zeta. cbn [fst].
  apply deDupe_ordered. by apply assemble_sorted.
Qed.

End OrderExtras.

(** ** Section headers of the exported file *)

Section ExporterFacts.

Import Stdlib.Strings.Ascii Stdlib.Strings.String.
Import Exporter.
Local Open Scope string_scope.

Lemma capture_none_without_bracket s :
  hasChar "]"%char s = false -> captureToLastBracket s = None.
Proof.
  induction s as [|c s IH]; simpl; [done|].
  intros H. apply orb_false_iff in H as [Hc Hs].
  destruct (isLineTerminator c); [done|]. by rewrite IH, Hc.
Qed.

Lemma capture_title title post :
  noTerminator title = true -> hasChar "]"%char post = false ->
  captureToLastBracket (title ++ String "]"%char post) = Some title.
Proof.
  intros Ht Hp. induction title as [|c title IH]; simpl.
  - by rewrite (capture_none_without_bracket post Hp).
  - simpl in Ht. apply andb_true_iff in Ht as [Hc Ht].
    apply negb_true_iff in Hc. by rewrite Hc, IH.
Qed.

Lemma search_skips pre s :
  hasChar "["%char pre = false ->
  bracketSearch (pre ++ s) = bracketSearch s.
Proof.
  induction pre as [|c pre IH]; simpl; [done|].
  intros H. apply orb_false_iff in H as [Hc Hp]. by rewrite Hc, IH.
Qed.

Lemma hasChar_app c s1 s2 :
  hasChar c (s1 ++ s2) = hasChar c s1 || hasChar c s2.
Proof.
  induction s1 as [|d s1 IH]; simpl; [done|]. by rewrite IH, orb_assoc.
Qed.

(** X23.  A line is recognised as the controls section exactly when the text
    between its first opening bracket and its last closing bracket is
    CONTROLS: for a line made of a prefix without opening bracket, a
    bracketed title without line terminator and a suffix without closing
    bracket, [_epanet_sectionFromLine] answers [controls] if the title is
    CONTROLS and [none] otherwise. *)
Theorem sectionFromLine_recognises_controls pre title post :
  hasChar "["%char pre = false ->
  noTerminator title = true ->
  hasChar "]"%char post = false ->
  _epanet_sectionFromLine (pre ++ String "["%char (title ++ String "]"%char post))
  = if String.eqb title "CONTROLS" then controls else none.
Proof.
  intros Hpre Ht Hpost. unfold _epanet_sectionFromLine.
  rewrite hasChar_app. simpl. rewrite orb_true_r.
  rewrite (search_skips pre _ Hpre). simpl.
  rewrite (capture_title title post Ht Hpost).
  unfold _epanet_specialSections. by destruct (String.eqb title "CONTROLS").
Qed.

Lemma sectionFromLine_no_bracket line :
  hasChar "]"%char line = false -> _epanet_sectionFromLine line = none.
Proof.
  intros H. unfold _epanet_sectionFromLine.
  destruct (hasChar "["%char line); [|done].
  assert (bracketSearch line = None) as ->; [|done].
  induction line as [|c line IH]; simpl; [done|].
  simpl in H. apply orb_false_iff in H as [Hc Hl].
  destruct (Ascii.eqb c "["%char); [|by apply IH].
  by rewrite (capture_none_without_bracket line Hl), IH.
Qed.

End ExporterFacts.

(** * Concrete runs *)

#[local] Existing Instance Runs.db.
#[local] Existing Instance Runs.markers.
#[local] Existing Instance Runs.retention.

Lemma mock_answersInOrder (a : Mock.t) (id : string) :
  Buffer.ordered (Mock.rows a id) -> answersInOrder a id.
Proof.
  intros Ho w. split.
  - apply StronglySorted_lt_le. by apply ordered_filter.
  - apply Forall_forall. by intros p [? _]%list_elem_of_filter.
Qed.

Lemma unread_rows_ordered :
  Buffer.ordered (Mock.rows (_adapter Runs.unread) "A").
Proof.
  vm_compute. repeat constructor.
Qed.



(** C1, second counterexample: a connected store that answers out of time
    order.  The first lookup returns the points as the store sent them, the
    second returns them in the order of the buffer. *)
Lemma pointsInRange_differs_for_unordered_answers :
  (pointsInRange "A" (mkRange 50 250) Runs.unordered).1 = [Runs.p200; Runs.p100]
  /\ (pointsInRange "A" (mkRange 50 250)
        (pointsInRange "A" (mkRange 50 250) Runs.unordered).2).1
     = [Runs.p100; Runs.p200].
Proof.
  split; vm_compute; reflexivity.
Qed.

(** C1, third counterexample: a buffer that keeps only the latest point of
    a series.  The first lookup returns both stored points and memoizes the
    range; the second reads the buffer, where one of them is left. *)
Lemma pointsInRange_differs_after_eviction :
  let q := mkRange 50 250 in
  let first := @pointsInRange _ Runs.db Runs.markers Runs.scarce "A" q
                 Runs.unread in
  first.1 = [Runs.p100; Runs.p200]
  /\ (@pointsInRange _ Runs.db Runs.markers Runs.scarce "A" q first.2).1
     = [Runs.p200].
Proof.
  cbn zeta. split; vm_compute; reflexivity.
Qed.



(** C3: "x" is listed with units 1 and is registered with units 2 on a
    writable, connected store.  The record is not removed: when the store
    cannot assign units the registration fails after the listing, and when
    it can, the units of the existing record are overwritten; in neither
    case is the name registered in the buffer. *)
Lemma register_mismatch_keeps_record :
  let r1 := @registerAndGetIdentifierForSeriesWithUnits _ Runs.dbNoAssign
              "x" (RTX_DIMENSIONED 2) 0 Runs.listed in
  let r2 := @registerAndGetIdentifierForSeriesWithUnits _ Runs.db
              "x" (RTX_DIMENSIONED 2) 0 Runs.listed in
  (r1.1 = false
   /\ calls r1.2 = [CallIdUnitsList]
   /\ Mock.registry (_adapter r1.2) !! "x" = Some (RTX_DIMENSIONED 1)
   /\ Buffer.registered (super r1.2) !! "x" = None)
  /\ (r2.1 = true
      /\ calls r2.2 = [CallIdUnitsList;
                       CallAssignUnitsToRecord "x" (RTX_DIMENSIONED 2)]
      /\ Buffer.registered (super r2.2) !! "x" = None).
Proof.
  cbn zeta. split_and!; vm_compute; reflexivity.
Qed.

(** C4: a covered query leaves the record untouched. *)
Lemma pointsInRange_buffer_only_witness :
  let st := (pointsInRange "A" (mkRange 50 250) Runs.unread).2 in
  memoCovers st "A" (mkRange 100 200) = true
  /\ pointsInRange "A" (mkRange 100 200) st
     = (super_pointsInRange st "A" (mkRange 100 200), st).
Proof.
  cbn zeta. split; [vm_compute; reflexivity|].
  apply (proj1 (pointsInRange_buffer_only "A" (mkRange 100 200) _)).
  vm_compute. reflexivity.
Defined.

(** C4, counterexample: the buffer spans [100, 200], the memo is blank and
    the adapter has lost its connection.  The query [120, 180] is classified
    as internal, yet [doConnect] is called and the adapter changes state. *)
Lemma pointsInRange_internal_reconnects :
  let q := mkRange 120 180 in
  let st' := (pointsInRange "A" q Runs.lostConnection).2 in
  memoCovers Runs.lostConnection "A" q = false
  /\ intersection (Buffer.range (super Runs.lostConnection) "A") q
     = intersect_other_internal
  /\ calls st' = calls Runs.lostConnection ++ [CallDoConnect]
  /\ _adapter st' <> _adapter Runs.lostConnection.
Proof.
  cbn zeta. split_and!; [vm_compute; reflexivity..|].
  vm_compute. discriminate.
Qed.

(** C5: the buffer spans [100, 200] and the query is [50, 150]. *)
Lemma pointsInRange_left_overlap_witness :
  memoCovers Runs.stored "A" (mkRange 50 150) = false
  /\ (checkConnected Runs.stored).1 = true
  /\ intersection (Buffer.range (super Runs.stored) "A") (mkRange 50 150)
     = intersect_left
  /\ calls (pointsInRange "A" (mkRange 50 150) Runs.stored).2
     = calls (checkConnected Runs.stored).2
       ++ [CallSelectRange "A" (mkRange 50 100)].
Proof.
  split_and!; [vm_compute; reflexivity..|].
  apply (pointsInRange_left_overlap "A" (mkRange 50 150) Runs.stored);
    vm_compute; reflexivity.
Defined.

(** C5, counterexample: store and buffer both hold the point at 100, the
    start of the buffered span.  The gap query [50, 100] and the buffered
    part [100, 150] both contain it, so the concatenation has two points,
    while the lookup returns one. *)
Lemma left_overlap_returns_less_than_concatenation :
  let q := mkRange 50 150 in
  let st := Runs.stored in
  let fetched :=
    pointsWithOpcFilter st (selectRange (_adapter st) "A" (mkRange 50 100)) in
  let buffered := super_pointsInRange st "A" (mkRange 100 150) in
  intersection (Buffer.range (super st) "A") q = intersect_left
  /\ fetched ++ buffered = [Runs.p100; Runs.p100]
  /\ (pointsInRange "A" q st).1 = [Runs.p100]
  /\ (pointsInRange "A" q st).1 <> fetched ++ buffered.
Proof.
  cbn zeta. split_and!; [vm_compute; reflexivity..|].
  vm_compute. discriminate.
Qed.

(** C7: a write on a read-only record returns and changes nothing; a
    write on a writable record starts with the connection check. *)
Lemma addPoint_addPoints_policy_witness :
  let st := setReadonly true Runs.fresh in
  readonly st = true
  /\ Raising.addPoint "A" Runs.p100 st = Returned st
  /\ Raising.addPoints "A" [Runs.p100; Runs.p200] st = Returned st
  /\ readonly Runs.unreachable = false
  /\ exists (k : nat) (st1 : State Mock.t),
       (k <= 4)%nat
       /\ calls st1 = calls Runs.unreachable ++ replicate k CallDoConnect
       /\ cacheState st1 = cacheState Runs.unreachable.
Proof.
  cbn zeta.
  assert (readonly (setReadonly true Runs.fresh) = true) as Hro
    by reflexivity.
  assert (readonly Runs.unreachable = false) as Hrw by reflexivity.
  destruct (addPoint_addPoints_policy "A" Runs.p100 [Runs.p100; Runs.p200]
              (setReadonly true Runs.fresh)) as [Hquiet _].
  destruct (addPoint_addPoints_policy "A" Runs.p100 [Runs.p100; Runs.p200]
              Runs.unreachable) as [_ Hcheck].
  destruct (Hquiet Hro) as [H1 H2].
  destruct (Hcheck Hrw) as (k & st1 & Hk & Hcalls & _ & Hcache & _).
  split_and!; [done..|]. exists k, st1. by split_and!.
Defined.

(** C7, counterexample: the store needs ten more attempts before it accepts
    a connection.  When its failed attempts return, [addPoint] stores
    nothing, but it has called [doConnect] four times and the adapter is no
    longer in the state it was in.  When its failed attempts raise,
    [addPoint] is left by the exception of the first attempt. *)
Lemma addPoint_unreachable_raises_or_calls_doConnect :
  readonly Runs.unreachable = false
  /\ readonly (db:=Runs.dbFaulty) Runs.unreachable = false
  /\ adapterConnected (_adapter Runs.unreachable) = false
  /\ (exists st',
        Raising.addPoint "A" Runs.p100 Runs.unreachable = Returned st'
        /\ super st' = super Runs.unreachable
        /\ calls st' = calls Runs.unreachable ++ replicate 4 CallDoConnect
        /\ _adapter st' <> _adapter Runs.unreachable)
  /\ (exists st',
        Raising.addPoint (db:=Runs.dbFaulty) "A" Runs.p100 Runs.unreachable
        = Threw st'
        /\ super st' = super Runs.unreachable
        /\ calls st' = calls Runs.unreachable ++ [CallDoConnect]).
Proof.
  split_and!; [reflexivity..| |].
  - eexists. split; [vm_compute; reflexivity|].
    split_and!; [vm_compute; reflexivity..|]. vm_compute. discriminate.
  - eexists. split; [vm_compute; reflexivity|].
    split; vm_compute; reflexivity.
Qed.

(** C8: code set {0}; quality 0 passes marked as overridden, quality 1 is
    absent. *)
Lemma whitelist_keeps_listed_codes_witness :
  opcFilterType Runs.whiteListed = OpcWhiteList
  /\ opcFilterList Runs.whiteListed = {[0%N]}
  /\ pointsWithOpcFilter Runs.whiteListed [Runs.good; Runs.bad]
     = [mkPoint 100 7 128 1 true].
Proof.
  split_and!; [vm_compute; reflexivity..|].
  unfold Runs.whiteListed, Runs.fresh.
  rewrite (whitelist_keeps_listed_codes Runs.emptyStore 0
             [OpSetOpcFilterType OpcWhiteList; OpAddOpcFilterCode 0]).
  - vm_compute. reflexivity.
  - vm_compute. reflexivity.
Defined.



(** C10: a listing fetched at time 0 is served again at time 4. *)
Lemma identifiersAndUnits_memo_witness :
  let st := (identifiersAndUnits 0 Runs.listed).2 in
  4 - _lastIdRequest st < 5
  /\ _identifiersAndUnitsCache st <> ∅
  /\ identifiersAndUnits 4 st
     = (_identifiersAndUnitsCache st, with_lastIdRequest 4 st).
Proof.
  cbn zeta.
  assert (4 - _lastIdRequest (identifiersAndUnits 0 Runs.listed).2 < 5) as H1
    by (vm_compute; reflexivity).
  assert (_identifiersAndUnitsCache (identifiersAndUnits 0 Runs.listed).2 <> ∅)
    as H2 by (vm_compute; discriminate).
  split_and!; [done..|].
  exact (proj1 (identifiersAndUnits_memo 4 [] _) H1 H2).
Defined.

(** C10, counterexample: the listing is fetched at time 0, then "x" is
    removed from the store.  Calls at times 4 and 8 are each less than five
    seconds after the call before, so the call at time 8 still returns the
    listing of time 0, eight seconds old, and never asks the adapter. *)
Lemma registry_view_older_than_five_seconds :
  let st1 := (identifiersAndUnits 0 Runs.listed).2 in
  let st2 := invalidate "x" st1 in
  let st3 := (identifiersAndUnits 4 st2).2 in
  (identifiersAndUnits 8 st3).1 = {["x" := RTX_DIMENSIONED 1]}
  /\ idUnitsList (_adapter st3) = ∅
  /\ calls (identifiersAndUnits 8 st3).2
     = [CallIdUnitsList; CallRemoveRecord "x"]
  /\ (identifiersAndUnits 8 st3).1 <> idUnitsList (_adapter st3).
Proof.
  cbn zeta. split_and!; [vm_compute; reflexivity..|].
  vm_compute. discriminate.
Qed.

(** ** Concrete runs of the further properties *)

(** X2: four lookups on a store that holds two points. *)
Lemma lookups_only_query_witness :
  let ops := [OpPoint "A" 150; OpPointsInRange "A" (mkRange 50 250);
              OpPointBefore "A" 300; OpIdentifiersAndUnits 3] in
  forallb isLookup ops = true
  /\ sends isLookupCall Runs.unread (run ops Runs.unread).
Proof.
  cbn zeta. split; [reflexivity|].
  apply lookups_only_query. reflexivity.
Defined.

(** X4: writes, a removal and a registration against a read-only store. *)
Lemma readonly_store_never_written_witness :
  let ops := [OpSetReadonly false; OpAddPoint "A" Runs.p100;
              OpAddPoints "A" [Runs.p100; Runs.p200]; OpInvalidate "A";
              OpRegister "y" (RTX_DIMENSIONED 2) 0] in
  implementationReadonly (@options _ Runs.dbReadOnly) = true
  /\ sends (fun c => negb (isDataWrite c)) Runs.fresh
       (@run _ Runs.dbReadOnly Runs.markers _ ops Runs.fresh).
Proof.
  cbn zeta. split; [reflexivity|].
  apply (@readonly_store_never_written _ Runs.dbReadOnly Runs.markers).
  reflexivity.
Defined.

(** X5: the point written at 100 is read back from a buffer that has room
    for it. *)
Lemma point_reads_back_written_points_witness :
  readonly Runs.fresh = false
  /\ (checkConnected Runs.fresh).1 = true
  /\ Buffer.retains (super Runs.fresh) "A" [Runs.p100]
  /\ (point "A" 100 (addPoint "A" Runs.p100 Runs.fresh)).1 = Runs.p100.
Proof.
  assert (readonly Runs.fresh = false) as Hro by reflexivity.
  assert ((checkConnected Runs.fresh).1 = true) as Hc by reflexivity.
  assert (Buffer.retains (super Runs.fresh) "A" [Runs.p100]) as Hr
    by reflexivity.
  split_and!; [done..|].
  rewrite (proj1 (point_reads_back_written_points "A" Runs.p100 [] Runs.fresh
                    Hro Hc) eq_refl Hr).
  reflexivity.
Defined.

(** X6: the point at 200 is found behind the point at 100. *)
Lemma point_scan_finds_match_witness :
  StronglySorted Z.le (time <$> [Runs.p100; Runs.p200])
  /\ Runs.p200 ∈ [Runs.p100; Runs.p200]
  /\ time (point_scan 200 Point_default [Runs.p100; Runs.p200]) = 200.
Proof.
  assert (StronglySorted Z.le (time <$> [Runs.p100; Runs.p200])) as Hs
    by (simpl; repeat constructor; simpl; lia).
  assert (Runs.p200 ∈ [Runs.p100; Runs.p200]) as Hin
    by (right; left).
  split_and!; [done..|].
  exact (proj1 (point_scan_finds_match 200 Point_default Runs.p200
                  [Runs.p100; Runs.p200] Hs Hin eq_refl)).
Defined.

(** X7: a miss at 150 fetches the points at 100 and 200 and memoizes
    [100, 200]. *)
Lemma point_memoizes_fetched_span_witness :
  adapterConnected (_adapter Runs.unread) = true
  /\ isValid (super_point Runs.unread "A" 150) = false
  /\ request_contains (_last_request Runs.unread) "A" 150 = false
  /\ _last_request (point "A" 150 Runs.unread).2
     = request_new "A" (mkRange 100 200).
Proof.
  split_and!; [reflexivity..|].
  exact (proj1 (proj2 (point_memoizes_fetched_span "A" 150 Runs.p100
                         [Runs.p200] Runs.unread
                         eq_refl eq_refl eq_refl eq_refl))).
Defined.

(** X8: the buffer spans [100, 200] and the query is [50, 150]. *)
Lemma pointsInRange_asks_only_for_gaps_witness :
  memoCovers Runs.stored "A" (mkRange 50 150) = false
  /\ adapterConnected (_adapter Runs.stored) = true
  /\ calls (pointsInRange "A" (mkRange 50 150) Runs.stored).2
     = calls Runs.stored
       ++ (CallSelectRange "A"
             <$> gapQueries (Buffer.range (super Runs.stored) "A")
                   (mkRange 50 150)).
Proof.
  split_and!; [reflexivity..|].
  exact (proj1 (pointsInRange_asks_only_for_gaps "A" (mkRange 50 150)
                  Runs.stored eq_refl eq_refl)).
Defined.

(** X10: after a fetch of [50, 250], a filter code is added. *)
Lemma flush_keeps_memo_witness :
  let st := (pointsInRange "A" (mkRange 50 250) Runs.unread).2 in
  memoCovers st "A" (mkRange 100 200) = true
  /\ pointsInRange "A" (mkRange 100 200) (addOpcFilterCode 3 st)
     = ([], addOpcFilterCode 3 st).
Proof.
  cbn zeta.
  assert (memoCovers (pointsInRange "A" (mkRange 50 250) Runs.unread).2
            "A" (mkRange 100 200) = true) as Hm by (vm_compute; reflexivity).
  split; [exact Hm|].
  exact (proj1 (flush_keeps_memo "A" (mkRange 100 200) 3%N OpcPassThrough _ Hm)).
Defined.

(** X11: the series "A" is invalidated. *)
Lemma invalidate_removes_then_resets_witness :
  readonly Runs.stored = false
  /\ adapterConnected (_adapter Runs.stored) = true
  /\ adapterConnected (removeRecord (_adapter Runs.stored) "A") = true
  /\ calls (invalidate "A" Runs.stored)
     = calls Runs.stored ++ [CallRemoveRecord "A"].
Proof.
  split_and!; [reflexivity..|].
  exact (proj1 (proj2 (proj2 (invalidate_removes_then_resets "A" Runs.stored))
                  eq_refl eq_refl eq_refl)).
Defined.

(** X12: the series "A" is reset. *)
Lemma reset_id_clears_cache_only_witness :
  readonly Runs.stored = false
  /\ (checkConnected Runs.stored).1 = true
  /\ _last_request (reset_id "A" Runs.stored) = mkRequest TimeRange_empty "".
Proof.
  assert (readonly Runs.stored = false) as Hro by reflexivity.
  assert ((checkConnected Runs.stored).1 = true) as Hc by reflexivity.
  split_and!; [done..|].
  exact (proj1 (proj2 (proj2 (reset_id_clears_cache_only "A" Runs.stored
                                Hro Hc)))).
Defined.

(** X16: the search before 250 finds the point at 200. *)
Lemma bound_lookup_filters_found_point_again_witness :
  adapterConnected (_adapter Runs.unread) = true
  /\ searchIteratively (@options _ Runs.dbIterative) = true
  /\ (@pointBefore _ Runs.dbIterative Runs.markers _ "A" 250 Runs.unread).1
     = Runs.p200.
Proof.
  split_and!; [reflexivity..|].
  rewrite (proj1 (proj1 (@bound_lookup_filters_found_point_again
                           _ Runs.dbIterative Runs.markers _ "A" 250 Runs.unread
                           eq_refl eq_refl)
                    eq_refl eq_refl eq_refl)).
  vm_compute. reflexivity.
Defined.

(** X19: "x" is listed with units 1 on a read-only store. *)
Lemma register_on_readonly_record_witness :
  "x" <> ""
  /\ adapterConnected (_adapter Runs.listed) = true
  /\ @readonly _ Runs.dbReadOnly Runs.listed = true
  /\ (@registerAndGetIdentifierForSeriesWithUnits _ Runs.dbReadOnly
        "x" (RTX_DIMENSIONED 1) 0 Runs.listed).1 = true.
Proof.
  assert ("x" <> "") as Hn by discriminate.
  split_and!; [done | reflexivity | reflexivity |].
  rewrite (proj1 (@register_on_readonly_record _ Runs.dbReadOnly
                    "x" (RTX_DIMENSIONED 1) 0 Runs.listed Hn eq_refl eq_refl)).
  vm_compute. reflexivity.
Defined.

(** X20: "y" is not listed on a writable store. *)
Lemma register_on_writable_record_witness :
  "y" <> ""
  /\ adapterConnected (_adapter Runs.listed) = true
  /\ readonly Runs.listed = false
  /\ (identifiersAndUnits 0 Runs.listed).1 !! "y" = None
  /\ calls (registerAndGetIdentifierForSeriesWithUnits
              "y" (RTX_DIMENSIONED 2) 0 Runs.listed).2
     = calls (identifiersAndUnits 0 Runs.listed).2
       ++ [CallInsertIdentifierAndUnits "y" (RTX_DIMENSIONED 2)].
Proof.
  assert ("y" <> "") as Hn by discriminate.
  assert ((identifiersAndUnits 0 Runs.listed).1 !! "y" = None) as Hl
    by (vm_compute; reflexivity).
  split_and!; [done | reflexivity | reflexivity | exact Hl |].
  exact (proj1 (proj2 (proj1 (register_on_writable_record
                                "y" (RTX_DIMENSIONED 2) 0 Runs.listed
                                Hn eq_refl eq_refl) Hl))).
Defined.

(** X21: an adapter with neither capability. *)
Lemma bound_lookups_respect_capabilities_witness :
  supportsSinglyBoundQuery (@options _ Runs.dbPlain) = false
  /\ sends isRangeCall Runs.unread
       (@pointBefore _ Runs.dbPlain Runs.markers _ "A" 250 Runs.unread).2.
Proof.
  split; [reflexivity|].
  exact (proj1 (@bound_lookups_respect_capabilities _ Runs.dbPlain Runs.markers _
                  "A" 250 Runs.unread eq_refl)).
Defined.

(** X22: the two stored points come back in time order. *)
Lemma pointsInRange_in_time_order_witness :
  adapterConnected (_adapter Runs.unread) = true
  /\ answersInOrder (_adapter Runs.unread) "A"
  /\ StronglySorted Z.lt
       (time <$> (pointsInRange "A" (mkRange 50 250) Runs.unread).1).
Proof.
  split_and!.
  - reflexivity.
  - apply mock_answersInOrder, unread_rows_ordered.
  - apply (pointsInRange_in_time_order
             (Mock.mk true 0 {["A" := [Runs.p100; Runs.p200]]} ∅) 0 []
             "A" (mkRange 50 250)).
    + reflexivity.
    + apply mock_answersInOrder, unread_rows_ordered.
Defined.

(** X23: the header line of the controls section. *)
Lemma sectionFromLine_recognises_controls_witness :
  Exporter._epanet_sectionFromLine "[CONTROLS]" = Exporter.controls.
Proof.
  exact (sectionFromLine_recognises_controls "" "CONTROLS" ""
           eq_refl eq_refl eq_refl).
Defined.

(** X15: removing a code that was never added, and switching a fresh record
    to [OpcNoFilter]. *)
Lemma filter_setters_edge_cases_witness :
  _filterType Runs.fresh = OpcPassThrough
  /\ (_filterType Runs.fresh <> OpcNoFilter)
  /\ (3%N ∉ _opcFilterCodes Runs.fresh)
  /\ setOpcFilterType OpcPassThrough Runs.fresh = Returned Runs.fresh
  /\ removeOpcFilterCode 3 Runs.fresh = Runs.fresh
  /\ exists st', setOpcFilterType OpcNoFilter Runs.fresh = Threw st'
                 /\ opcFilterType st' = OpcNoFilter.
Proof.
  assert (_filterType Runs.fresh = OpcPassThrough) as Hty by reflexivity.
  assert (_filterType Runs.fresh <> OpcNoFilter) as Hne by (rewrite Hty; discriminate).
  assert (3%N ∉ _opcFilterCodes Runs.fresh) as Hnot by (apply not_elem_of_empty).
  destruct (filter_setters_edge_cases OpcPassThrough 3%N Runs.fresh [])
    as (Hsame & Hthrow & Hrem & _).
  split_and!; [done | done | done | exact (Hsame Hty) | exact (Hrem Hnot) |].
  destruct (Hthrow Hne) as (st' & Hs & Ht & _). exists st'. by split.
Defined.

(** X18: a name is registered while the store cannot be reached. *)
Lemma register_without_store_witness :
  "x" <> ""
  /\ (checkConnected Runs.unreachable).1 = false
  /\ (registerAndGetIdentifierForSeriesWithUnits "x" (RTX_DIMENSIONED 1) 0
        Runs.unreachable).1 = true.
Proof.
  assert ("x" <> "") as Hn by discriminate.
  assert ((checkConnected Runs.unreachable).1 = false) as Hc by reflexivity.
  split_and!; [done..|].
  exact (proj1 (proj2 (register_without_store "x" (RTX_DIMENSIONED 1) 0
                         Runs.unreachable) Hn Hc)).
Defined.
